(** * Coffee-Shop POS: the data access layer and the kiosk tracker

    A shallow embedding of [src/services/db.ts] (class [DBService]: the
    localStorage-backed store and the listener bus), of [src/types.ts] and of
    the [checkStatus] reconciler of [src/components/CustomerKiosk.tsx].

    Modelling conventions.
    - A JavaScript [number] that holds an id, a price, a quantity or a
      millisecond timestamp is an integer of [Z]; ids, timestamps and
      quantities (click counters) stay far below [2^53], where the double
      arithmetic of the code is exact, and the sums and products of prices
      are computed with the rounding of doubles ([numAdd], [numMul]).
    - A localStorage key holds [None] when it was never written and
      [Some records] otherwise; [JSON.stringify]/[JSON.parse] is the identity
      on the typed records below, so every read yields a fresh copy of what
      was last written.
    - Every method of [DBService] runs between two suspension points of one
      browser context: it is one transition of the state [DB].  The value
      [Date.now()] returns inside a method is an argument [now] of it.
    - A listener is a function reference; what its body may do to the bus
      while it runs is given by an environment [react]. *)

From stdpp Require Import base list strings pretty sorting.
From Stdlib Require Import ZArith Lia.

Local Open Scope Z_scope.

(** ** src/types.ts *)

Inductive OrderStatus : Type :=
  | pending
  | preparing
  | ready
  | completed
  | cancelled.

Global Instance OrderStatus_eq_dec : EqDecision OrderStatus.
Proof. solve_decision. Defined.

Module MenuItem.
Record t : Type := mk {
  id : Z;
  name : string;
  price : Z;
  category : string;
  image : option string;
  description : option string
}.
End MenuItem.

Module CartItem.
(** [interface CartItem extends MenuItem]: the inherited fields are [item]. *)
Record t : Type := mk {
  item : MenuItem.t;
  quantity : Z;
  instructions : option string;
  cartId : option string
}.
End CartItem.

Module Customer.
Record t : Type := mk {
  id : string;
  name : string;
  phone : string;
  address : string;
  password : option string
}.

(** [Omit<Customer, 'id'>] *)
Record data : Type := mkData {
  d_name : string;
  d_phone : string;
  d_address : string;
  d_password : option string
}.

(** [{ ...customerData, id }] *)
Definition of_data (d : data) (newId : string) : t :=
  mk newId (d_name d) (d_phone d) (d_address d) (d_password d).
End Customer.

Module Order.
Record t : Type := mk {
  id : Z;
  timestamp : Z;
  tableNumber : string;
  customerName : string;
  customerId : option string;
  items : list CartItem.t;
  total : Z;
  status : OrderStatus
}.

(** [order.status = status]: the one field assignment of the source. *)
Definition set_status (s : OrderStatus) (o : t) : t :=
  mk (id o) (timestamp o) (tableNumber o) (customerName o) (customerId o)
     (items o) (total o) s.
End Order.

Global Instance MenuItem_eq_dec : EqDecision MenuItem.t.
Proof. solve_decision. Defined.
Global Instance CartItem_eq_dec : EqDecision CartItem.t.
Proof. solve_decision. Defined.
Global Instance Customer_eq_dec : EqDecision Customer.t.
Proof. solve_decision. Defined.
Global Instance Order_eq_dec : EqDecision Order.t.
Proof. solve_decision. Defined.

(** ** src/services/db.ts: events, storage, state *)

(** [DBEvent]: the type tag with the payload each publisher attaches. *)
Inductive DBEvent : Type :=
  | NEW_ORDER (data : Order.t)
  | STATUS_UPDATE (orderId : Z) (status : OrderStatus)
  | MENU_UPDATE
  | GENERIC_UPDATE.

Global Instance DBEvent_eq_dec : EqDecision DBEvent.
Proof. solve_decision. Defined.

(** A listener is identified by its function reference ([l !== listener]). *)
Definition Listener : Type := nat.

(** What a listener body may do to the bus synchronously.  Every mutating
    method of [DBService] is [async] and awaits before its first effect, so
    a body cannot publish or write from inside a dispatch. *)
Inductive BusOp : Type :=
  | DoSubscribe (l : Listener)
  | DoUnsubscribe (l : Listener).

(** The three localStorage keys. *)
Record Storage : Type := mkStorage {
  hm_pos_menu : option (list MenuItem.t);
  hm_pos_orders : option (list Order.t);
  hm_pos_customers : option (list Customer.t)
}.

(** One browser context: the store, [this.listeners], the messages handed to
    [this.channel.postMessage] and the listener invocations made so far. *)
Record DB : Type := mkDB {
  storage : Storage;
  listeners : list Listener;
  posted : list DBEvent;
  calls : list (Listener * DBEvent)
}.

Definition INITIAL_MENU : list MenuItem.t :=
  [ MenuItem.mk 1 "Signature Espresso" 3500 "Coffee"
      (Some "https://images.unsplash.com/photo-1510707577719-ae7c14805e3a?auto=format&fit=crop&w=400&q=80")
      (Some "Rich, full-bodied espresso shot.");
    MenuItem.mk 2 "Oat Milk Latte" 5500 "Coffee"
      (Some "https://images.unsplash.com/photo-1534687553325-699a223e85e9?auto=format&fit=crop&w=400&q=80")
      (Some "Smooth espresso with steamed oat milk.");
    MenuItem.mk 3 "Blueberry Muffin" 4000 "Pastry"
      (Some "https://images.unsplash.com/photo-1607958996333-41aef7caefaa?auto=format&fit=crop&w=400&q=80")
      (Some "Freshly baked with real blueberries.") ].

Definition set_menu (m : list MenuItem.t) (st : DB) : DB :=
  mkDB (mkStorage (Some m) (hm_pos_orders (storage st))
          (hm_pos_customers (storage st)))
       (listeners st) (posted st) (calls st).

Definition set_orders (os : list Order.t) (st : DB) : DB :=
  mkDB (mkStorage (hm_pos_menu (storage st)) (Some os)
          (hm_pos_customers (storage st)))
       (listeners st) (posted st) (calls st).

Definition set_customers (cs : list Customer.t) (st : DB) : DB :=
  mkDB (mkStorage (hm_pos_menu (storage st)) (hm_pos_orders (storage st))
          (Some cs))
       (listeners st) (posted st) (calls st).

Definition set_listeners (ls : list Listener) (st : DB) : DB :=
  mkDB (storage st) ls (posted st) (calls st).

(** [data ? JSON.parse(data) : []] *)
Definition parse {A : Type} (data : option (list A)) : list A :=
  default [] data.

(** ** [Array.prototype.sort] with a comparator

    The sort is stable and the comparators used here are consistent, so the
    result is the one stable ordering; it is computed by insertion, each
    element going in front of the first one it does not have to follow. *)
Section ArraySort.
Context {A : Type} (compareFn : A → A → Z).

Fixpoint sort_insert (x : A) (l : list A) : list A :=
  match l with
  | [] => [x]
  | y :: l' =>
      if decide (compareFn x y ≤ 0) then x :: y :: l'
      else y :: sort_insert x l'
  end.

Fixpoint array_sort (l : list A) : list A :=
  match l with
  | [] => []
  | x :: l' => sort_insert x (array_sort l')
  end.
End ArraySort.

(** [(a, b) => b.timestamp - a.timestamp] *)
Definition byTimestampDesc (a b : Order.t) : Z :=
  Order.timestamp b - Order.timestamp a.

(** [Omit<MenuItem, 'id'>] and [{ ...item, id: newId }] *)
Module NewMenuItem.
Record t : Type := mk {
  name : string;
  price : Z;
  category : string;
  image : option string;
  description : option string
}.

Definition with_id (i : t) (newId : Z) : MenuItem.t :=
  MenuItem.mk newId (name i) (price i) (category i) (image i) (description i).
End NewMenuItem.

(** A settled promise: the value it resolves to, or the message of the
    [Error] it rejects with. *)
Inductive Outcome (A : Type) : Type :=
  | Resolved (a : A)
  | Rejected (message : string).
Arguments Resolved {A} a.
Arguments Rejected {A} message.

(** A [Date] object: its time value in milliseconds since the epoch, or
    Invalid Date, whose time value is [NaN] (what [new Date("")] gives, as
    when the date field of the report screen is cleared). *)
Inductive Date : Type :=
  | ValidDate (time : Z)
  | InvalidDate.

(** [date.getTime()]; [None] is [NaN]. *)
Definition getTime (date : Date) : option Z :=
  match date with
  | ValidDate time => Some time
  | InvalidDate => None
  end.

(** [x >= t], [x <= t], [x < t] and [x > t] for a timestamp [x] and a
    time value [t]: each is false when [t] is [NaN]. *)
Definition geTime (x : Z) (t : option Z) : Prop :=
  match t with Some t => t ≤ x | None => False end.
Definition leTime (x : Z) (t : option Z) : Prop :=
  match t with Some t => x ≤ t | None => False end.
Definition ltTime (x : Z) (t : option Z) : Prop :=
  match t with Some t => x < t | None => False end.
Definition gtTime (x : Z) (t : option Z) : Prop :=
  match t with Some t => t < x | None => False end.

Global Instance geTime_dec x t : Decision (geTime x t).
Proof. destruct t; simpl; apply _. Defined.
Global Instance leTime_dec x t : Decision (leTime x t).
Proof. destruct t; simpl; apply _. Defined.
Global Instance ltTime_dec x t : Decision (ltTime x t).
Proof. destruct t; simpl; apply _. Defined.
Global Instance gtTime_dec x t : Decision (gtTime x t).
Proof. destruct t; simpl; apply _. Defined.

(** ** class DBService *)
Section DBService.
(** The bus operations the body of listener [l] performs when it is
    called with an event. *)
Context (react : Listener → DBEvent → list BusOp).
(** Local time is UTC plus [localOffset] milliseconds (a zone without
    daylight-saving changes, such as the shop's). *)
Context (localOffset : Z).

(** *** The listener bus *)

(** [this.listeners.push(listener)] *)
Definition subscribe (listener : Listener) (st : DB) : DB :=
  set_listeners (listeners st ++ [listener]) st.

(** The closure [subscribe] returns:
    [this.listeners = this.listeners.filter(l => l !== listener)]. *)
Definition unsubscribe (listener : Listener) (st : DB) : DB :=
  set_listeners (filter (λ l, l ≠ listener) (listeners st)) st.

Definition run_op (st : DB) (op : BusOp) : DB :=
  match op with
  | DoSubscribe l => subscribe l st
  | DoUnsubscribe l => unsubscribe l st
  end.

(** One call [l(event)]: the invocation is recorded, then the body runs. *)
Definition call_listener (event : DBEvent) (st : DB) (l : Listener) : DB :=
  foldl run_op
    (mkDB (storage st) (listeners st) (posted st) (calls st ++ [(l, event)]))
    (react l event).

(** [this.listeners.forEach(l => l(event))].  [forEach] walks the array
    object it was called on, over the length that object had at the start:
    a [push] made by a body lands beyond that range, and an unsubscribe
    installs a new array without touching the one being walked. *)
Definition notifyListeners (event : DBEvent) (st : DB) : DB :=
  foldl (call_listener event) st (listeners st).

Definition postMessage (event : DBEvent) (st : DB) : DB :=
  mkDB (storage st) (listeners st) (posted st ++ [event]) (calls st).

Definition broadcastUpdate (event : DBEvent) (st : DB) : DB :=
  notifyListeners event (postMessage event st).

(** [this.channel.onmessage]: a message without a [type] is a
    [GENERIC_UPDATE]. *)
Definition onmessage (data : option DBEvent) (st : DB) : DB :=
  notifyListeners (default GENERIC_UPDATE data) st.

Definition init (st : DB) : DB :=
  let s := storage st in
  mkDB (mkStorage
          (Some (default INITIAL_MENU (hm_pos_menu s)))
          (Some (default [] (hm_pos_orders s)))
          (Some (default [] (hm_pos_customers s))))
       (listeners st) (posted st) (calls st).

(** *** Customers *)

Definition registerCustomer (customerData : Customer.data) (now : Z)
    (st : DB) : DB * Outcome Customer.t :=
  let customers := parse (hm_pos_customers (storage st)) in
  match list_find
          (λ c, Customer.phone c = Customer.d_phone customerData)
          customers with
  | Some _ => (st, Rejected "Phone number already registered.")
  | None =>
      let newCustomer :=
        Customer.of_data customerData ("CUST-" +:+ pretty now) in
      (set_customers (customers ++ [newCustomer]) st, Resolved newCustomer)
  end.

Definition loginCustomer (phone password : string) (st : DB)
    : option Customer.t :=
  snd <$> list_find
    (λ c, Customer.phone c = phone ∧ Customer.password c = Some password)
    (parse (hm_pos_customers (storage st))).

Definition getCustomers (st : DB) : list Customer.t :=
  parse (hm_pos_customers (storage st)).

(** *** Menu *)

Definition getMenu (st : DB) : list MenuItem.t :=
  parse (hm_pos_menu (storage st)).

Definition addMenuItem (item : NewMenuItem.t) (now : Z) (st : DB)
    : DB * Z :=
  let menu := getMenu st in
  let newId := now in
  let newItem := NewMenuItem.with_id item newId in
  (broadcastUpdate MENU_UPDATE (set_menu (menu ++ [newItem]) st), newId).

Definition updateMenuItem (item : MenuItem.t) (st : DB) : DB :=
  let menu := getMenu st in
  match list_find (λ i, MenuItem.id i = MenuItem.id item) menu with
  | Some (index, _) =>
      broadcastUpdate MENU_UPDATE (set_menu (<[index := item]> menu) st)
  | None => st
  end.

Definition deleteMenuItem (id : Z) (st : DB) : DB :=
  let menu := filter (λ i, MenuItem.id i ≠ id) (getMenu st) in
  broadcastUpdate MENU_UPDATE (set_menu menu st).

(** *** Orders *)

Definition getOrders (st : DB) : list Order.t :=
  array_sort byTimestampDesc (parse (hm_pos_orders (storage st))).

Definition saveOrder (order : Order.t) (st : DB) : DB :=
  let orders := getOrders st ++ [order] in
  broadcastUpdate (NEW_ORDER order) (set_orders orders st).

(** [orders.find] yields the element itself, so the assignment to
    [order.status] changes the array at the position it was found. *)
Definition updateOrderStatus (orderId : Z) (status : OrderStatus)
    (st : DB) : DB :=
  let orders := getOrders st in
  match list_find (λ o, Order.id o = orderId) orders with
  | Some (i, order) =>
      broadcastUpdate (STATUS_UPDATE orderId status)
        (set_orders (<[i := Order.set_status status order]> orders) st)
  | None => st
  end.

(** [Date.prototype.setHours(h, m, s, ms)] on the time value [t] of a
    valid date: the same local calendar day at the given local time of
    day. *)
Definition msPerDay : Z := 86400000.

Definition setHours (t h m s ms : Z) : Z :=
  (t + localOffset) `div` msPerDay * msPerDay
    + (h * 3600000 + m * 60000 + s * 1000 + ms) - localOffset.

Definition startOfDay (date : Z) : Z := setHours date 0 0 0 0.
Definition endOfDay (date : Z) : Z := setHours date 23 59 59 999.

(** [date.setHours(h, m, s, ms)] on a [Date]: Invalid Date stays
    invalid. *)
Definition dateSetHours (date : Date) (h m s ms : Z) : Date :=
  match date with
  | ValidDate time => ValidDate (setHours time h m s ms)
  | InvalidDate => InvalidDate
  end.

Definition getOrdersByDate (date : Date) (st : DB) : list Order.t :=
  let orders := getOrders st in
  let start := dateSetHours date 0 0 0 0 in
  let end_ := dateSetHours date 23 59 59 999 in
  filter (λ order, geTime (Order.timestamp order) (getTime start)
                   ∧ leTime (Order.timestamp order) (getTime end_)) orders.

Definition deleteOrder (id : Z) (st : DB) : DB :=
  let orders := filter (λ o, Order.id o ≠ id) (getOrders st) in
  broadcastUpdate GENERIC_UPDATE (set_orders orders st).

Definition clearOrdersByDate (date : Date) (st : DB) : DB * Z :=
  let orders := getOrders st in
  let initialCount := Z.of_nat (length orders) in
  let start := dateSetHours date 0 0 0 0 in
  let end_ := dateSetHours date 23 59 59 999 in
  let orders' :=
    filter (λ order, ltTime (Order.timestamp order) (getTime start)
                     ∨ gtTime (Order.timestamp order) (getTime end_))
      orders in
  (broadcastUpdate GENERIC_UPDATE (set_orders orders' st),
   initialCount - Z.of_nat (length orders')).
End DBService.

(** ** src/components/CustomerKiosk.tsx: the order tracker *)

Inductive SoundType : Type :=
  | sound_preparing
  | sound_ready.

Inductive NotificationType : Type :=
  | info
  | success
  | warning.

(** What [checkStatus] does to the kiosk, in the order it does it. *)
Inductive KioskEffect : Type :=
  | playNotificationSound (type : SoundType)
  | addNotification (title message : string) (type : NotificationType)
  | setIsTrackingMinimized (minimized : bool)
  | setActiveOrder (order : Order.t).

Global Instance SoundType_eq_dec : EqDecision SoundType.
Proof. solve_decision. Defined.
Global Instance NotificationType_eq_dec : EqDecision NotificationType.
Proof. solve_decision. Defined.
Global Instance KioskEffect_eq_dec : EqDecision KioskEffect.
Proof. solve_decision. Defined.

(** [s.slice(-n)]: the last [n] characters, all of [s] when it is shorter. *)
Definition slice_last (n : nat) (s : string) : string :=
  String.substring (String.length s - n)%nat n s.

(** [checkStatus] with the closure's [activeOrderId] and [activeOrder]
    (the snapshot held from the previous run, [None] for [null]). *)
Definition checkStatus (activeOrderId : Z) (activeOrder : option Order.t)
    (st : DB) : list KioskEffect :=
  let orders := getOrders st in
  match list_find (λ o, Order.id o = activeOrderId) orders with
  | Some (_, freshOrder) =>
      match activeOrder with
      | Some activeOrder =>
          (if decide (Order.status activeOrder = pending
                      ∧ Order.status freshOrder = preparing)
           then [ playNotificationSound sound_preparing;
                  addNotification "Order Update"
                    "Your order is being prepared!" info ]
           else [])
          ++
          (if decide (Order.status activeOrder ≠ ready
                      ∧ Order.status freshOrder = ready)
           then [ playNotificationSound sound_ready;
                  addNotification "Order Ready!"
                    ("Order #" +:+ slice_last 4 (pretty (Order.id freshOrder))
                       +:+ " is ready for pickup.") success;
                  setIsTrackingMinimized false ]
           else [])
      | None => []
      end
      ++ [ setActiveOrder freshOrder ]
  | None => []
  end.

(** The tracker's bus listener runs [checkStatus] on these events only. *)
Definition tracksEvent (activeOrderId : Z) (event : DBEvent) : bool :=
  match event with
  | STATUS_UPDATE orderId _ => bool_decide (orderId = activeOrderId)
  | _ => false
  end.

(** The two alerts of the tracker, read off the effects of one run. *)
Definition softAlert (effects : list KioskEffect) : Prop :=
  playNotificationSound sound_preparing ∈ effects.

Definition prominentAlert (effects : list KioskEffect) : Prop :=
  playNotificationSound sound_ready ∈ effects
  ∧ setIsTrackingMinimized false ∈ effects.

(** ** src/components/CustomerKiosk.tsx: the cart and the checkout *)

Module VariationOption.
Record t : Type := mk {
  label : string;
  price : Z
}.
End VariationOption.

Global Instance VariationOption_eq_dec : EqDecision VariationOption.t.
Proof. solve_decision. Defined.

(** The object [VARIATIONS], as its entries in key order. *)
Definition VARIATIONS : list (string * list VariationOption.t) :=
  [ ("Size", [ VariationOption.mk "Regular" 0;
               VariationOption.mk "Large" 500 ]);
    ("Milk", [ VariationOption.mk "Whole" 0;
               VariationOption.mk "Skim" 0;
               VariationOption.mk "Oat" 500;
               VariationOption.mk "Almond" 500 ]);
    ("Sweetness", [ VariationOption.mk "100%" 0;
                    VariationOption.mk "50%" 0;
                    VariationOption.mk "0%" 0 ]);
    ("Ice", [ VariationOption.mk "Normal" 0;
              VariationOption.mk "Less" 0;
              VariationOption.mk "None" 0 ]) ].

(** [VARIATIONS[key]] *)
Definition variationsOf (key : string) : list VariationOption.t :=
  default [] ((λ found, found.2.2)
                <$> list_find (λ kv, kv.1 = key) VARIATIONS).

(** [{ ...item, price }] *)
Definition withPrice (price : Z) (i : MenuItem.t) : MenuItem.t :=
  MenuItem.mk (MenuItem.id i) (MenuItem.name i) price (MenuItem.category i)
    (MenuItem.image i) (MenuItem.description i).

(** [{ ...item, quantity }] *)
Definition withQuantity (quantity : Z) (i : CartItem.t) : CartItem.t :=
  CartItem.mk (CartItem.item i) quantity (CartItem.instructions i)
    (CartItem.cartId i).

(** The [price] and [id] a cart line inherits from [MenuItem]. *)
Definition linePrice (i : CartItem.t) : Z := MenuItem.price (CartItem.item i).
Definition lineId (i : CartItem.t) : Z := MenuItem.id (CartItem.item i).

(** *** Sums and products of amounts

    A number is a binary64 double.  On whole numbers the result of [+] and
    of [*] is the exact result rounded to the nearest double, ties to the
    even significand: the exact result itself up to [2^53] in magnitude,
    and beyond that the nearest multiple of the power of two that leaves 53
    significant bits.  (A result of magnitude [2^1024] or more, which a
    double holds as [Infinity], is outside this model.) *)

(** [z] over [2^e], rounded to the nearest integer, ties to even. *)
Definition roundHalfEven (z e : Z) : Z :=
  let q := z `div` 2 ^ e in
  let r := z `mod` 2 ^ e in
  let half := 2 ^ (e - 1) in
  if decide (r < half) then q
  else if decide (half < r) then q + 1
  else if Z.even q then q else q + 1.

(** The double nearest to the whole number [z]. *)
Definition binary64 (z : Z) : Z :=
  if decide (Z.abs z ≤ 2 ^ 53) then z
  else
    let e := Z.log2 (Z.abs z) - 52 in
    roundHalfEven z e * 2 ^ e.

(** [x + y] and [x * y] on whole numbers. *)
Definition numAdd (x y : Z) : Z := binary64 (x + y).
Definition numMul (x y : Z) : Z := binary64 (x * y).

(** [cart.reduce((sum, item) => sum + (item.price * item.quantity), 0)] *)
Definition cartTotal (cart : list CartItem.t) : Z :=
  foldl (λ sum item,
           numAdd sum (numMul (linePrice item) (CartItem.quantity item)))
    0 cart.


Module Notification.
Record t : Type := mk {
  id : string;
  title : string;
  message : string;
  timestamp : Z;
  read : bool;
  type : NotificationType
}.
End Notification.

Module Kiosk.
(** [selectedVariations], a [Record<string, any>]: its entries in key
    order, every value an option of [VARIATIONS]. *)
Definition Selection : Type := list (string * VariationOption.t).

(** The selection [openItemModal(item)] starts from. *)
Definition openItemModal (item : MenuItem.t) : Selection :=
  if decide (MenuItem.category item ∈ ["Coffee"; "Tea"])
  then [ ("Size", VariationOption.mk "Regular" 0);
         ("Milk", VariationOption.mk "Whole" 0);
         ("Sweetness", VariationOption.mk "100%" 0);
         ("Ice", VariationOption.mk "Normal" 0) ]
  else [].

(** [{ ...prev, [key]: opt }]: an existing key keeps its place. *)
Fixpoint selectOption (key : string) (opt : VariationOption.t)
    (prev : Selection) : Selection :=
  match prev with
  | [] => [(key, opt)]
  | (k, v) :: rest =>
      if decide (k = key) then (key, opt) :: rest
      else (k, v) :: selectOption key opt rest
  end.

Definition getAdjustedPrice (selectedItem : option MenuItem.t)
    (selectedVariations : Selection) : Z :=
  match selectedItem with
  | None => 0
  | Some selectedItem =>
      foldl (λ price kv,
               if decide (VariationOption.price kv.2 ≠ 0)
               then numAdd price (VariationOption.price kv.2) else price)
        (MenuItem.price selectedItem) selectedVariations
  end.



Definition updateQuantity (cartId : string) (delta : Z)
    (prev : list CartItem.t) : list CartItem.t :=
  filter (λ item, 0 < CartItem.quantity item)
    ((λ item,
        if decide (CartItem.cartId item = Some cartId)
        then withQuantity (Z.max 0 (CartItem.quantity item + delta)) item
        else item) <$> prev).

(** The component state [handleCheckout] and the tracker read and write,
    with the [hm_pos_active_order] key of localStorage. *)
Record t : Type := mk {
  cart : list CartItem.t;
  tableNumber : string;
  currentUser : option Customer.t;
  activeOrderId : option Z;
  activeOrder : option Order.t;
  isTrackingMinimized : bool;
  notifications : list Notification.t;
  showAuthModal : bool;
  showCart : bool;
  hm_pos_active_order : option string
}.

(** [addNotification(title, message, type)] with the two clock readings
    it takes. *)
Definition addNotification (title message : string)
    (type : NotificationType) (nowId nowTimestamp : Z)
    (prev : list Notification.t) : list Notification.t :=
  Notification.mk (pretty nowId) title message nowTimestamp false type
    :: prev.

(** [handleCheckout()]: [nowId] and [nowTimestamp] are the two clock
    readings the order takes, [nowN1] and [nowN2] those of the
    notification. *)
Definition handleCheckout (react : Listener → DBEvent → list BusOp)
    (nowId nowTimestamp nowN1 nowN2 : Z) (k : t) (st : DB) : t * DB :=
  match currentUser k with
  | None =>
      (mk (cart k) (tableNumber k) (currentUser k) (activeOrderId k)
          (activeOrder k) (isTrackingMinimized k) (notifications k)
          true (showCart k) (hm_pos_active_order k),
       st)
  | Some user =>
      if decide (cart k = [] ∨ tableNumber k = "") then (k, st)
      else
        let order :=
          Order.mk nowId nowTimestamp (tableNumber k) (Customer.name user)
            (Some (Customer.id user)) (cart k) (cartTotal (cart k))
            pending in
        (mk [] (tableNumber k) (currentUser k) (Some (Order.id order))
            (Some order) false
            (addNotification "Order Placed"
               ("Order #" +:+ slice_last 4 (pretty (Order.id order))
                  +:+ " has been sent to the kitchen.")
               success nowN1 nowN2 (notifications k))
            (showAuthModal k) false (Some (pretty (Order.id order))),
         saveOrder react order st)
  end.

Definition handleNewOrder (k : t) : t :=
  mk (cart k) "" (currentUser k) None None false (notifications k)
     (showAuthModal k) (showCart k) None.
End Kiosk.

(** ** src/components/AdminDashboard.tsx *)

Module AdminDashboard.
(** The optimistic update of [updateStatus]:
    [prev.map(o => o.id === orderId ? { ...o, status } : o)]. *)
Definition optimisticUpdate (orderId : Z) (status : OrderStatus)
    (prev : list Order.t) : list Order.t :=
  (λ o, if decide (Order.id o = orderId) then Order.set_status status o
        else o) <$> prev.

End AdminDashboard.

(** ** The counter order screen ([OrderSystem], in
    src/components/CustomerList.tsx) *)

Module OrderSystem.
(** The updater of [addToCart(item)]. *)
Definition addToCart (item : MenuItem.t) (prev : list CartItem.t)
    : list CartItem.t :=
  match list_find (λ i, lineId i = MenuItem.id item) prev with
  | Some _ =>
      (λ i, if decide (lineId i = MenuItem.id item)
            then withQuantity (CartItem.quantity i + 1) i else i) <$> prev
  | None => prev ++ [CartItem.mk item 1 None None]
  end.

(** The updater of [updateQuantity(itemId, delta)]. *)
Definition updateQuantity (itemId : Z) (delta : Z) (prev : list CartItem.t)
    : list CartItem.t :=
  filter (λ item, 0 < CartItem.quantity item)
    ((λ item,
        if decide (lineId item = itemId)
        then withQuantity (Z.max 0 (CartItem.quantity item + delta)) item
        else item) <$> prev).

End OrderSystem.

(** ** Vocabulary of the statements *)

(** Newest first: [a] may stand in front of [b]. *)
Definition newerFirst (a b : Order.t) : Prop :=
  Order.timestamp b ≤ Order.timestamp a.

(** The calls one dispatch of [event] over the array [ls] makes. *)
Definition deliveries (event : DBEvent) (ls : list Listener)
    : list (Listener * DBEvent) :=
  (λ l, (l, event)) <$> ls.

(** How often listener [l] was called with [event]. *)
Definition timesCalled (l : Listener) (event : DBEvent)
    (log : list (Listener * DBEvent)) : nat :=
  length (filter (λ c, c = (l, event)) log).

(** How many registrations of [l] the array holds. *)
Definition registrations (l : Listener) (ls : list Listener) : nat :=
  length (filter (λ x, x = l) ls).

(** [o'] is [o] up to its [status]. *)
Definition sameButStatus (o o' : Order.t) : Prop :=
  Order.id o' = Order.id o
  ∧ Order.timestamp o' = Order.timestamp o
  ∧ Order.tableNumber o' = Order.tableNumber o
  ∧ Order.customerName o' = Order.customerName o
  ∧ Order.customerId o' = Order.customerId o
  ∧ Order.items o' = Order.items o
  ∧ Order.total o' = Order.total o.

(** The menu mutations of the data access layer, as one call each. *)
Inductive MenuEdit : Type :=
  | EditAdd (item : NewMenuItem.t) (now : Z)
  | EditUpdate (item : MenuItem.t)
  | EditDelete (id : Z).

Definition applyMenuEdit (react : Listener → DBEvent → list BusOp)
    (st : DB) (e : MenuEdit) : DB :=
  match e with
  | EditAdd item now => (addMenuItem react item now st).1
  | EditUpdate item => updateMenuItem react item st
  | EditDelete id => deleteMenuItem react id st
  end.

(** The local calendar day of an instant and its local time of day. *)
Definition localDay (localOffset t : Z) : Z :=
  (t + localOffset) `div` msPerDay.

Definition localTimeOfDay (localOffset t : Z) : Z :=
  (t + localOffset) `mod` msPerDay.

(** The order was placed within the local day of [date], bounds included. *)
Definition inDay (localOffset date : Z) (o : Order.t) : Prop :=
  startOfDay localOffset date ≤ Order.timestamp o
  ∧ Order.timestamp o ≤ endOfDay localOffset date.

(** A sequence of [addMenuItem] calls, each with the clock reading it gets. *)
Definition addMenuItems (react : Listener → DBEvent → list BusOp)
    (st : DB) (requests : list (NewMenuItem.t * Z)) : DB :=
  foldl (λ st r, (addMenuItem react r.1 r.2 st).1) st requests.

Definition menuIds (st : DB) : list Z := MenuItem.id <$> getMenu st.

(** The customer id issued at clock reading [now]. *)
Definition customerIdAt (now : Z) : string := "CUST-" +:+ pretty now.

(** A sequence of [registerCustomer] calls, each with its clock reading;
    a rejected call leaves the state as it is. *)
Definition registerCustomers (st : DB)
    (requests : list (Customer.data * Z)) : DB :=
  foldl (λ st r, (registerCustomer r.1 r.2 st).1) st requests.

Definition customerPhones (st : DB) : list string :=
  Customer.phone <$> getCustomers st.

(** Every value of the selection is an option of [VARIATIONS] under its
    key, as the dialog offers them. *)
Definition offered (sel : Kiosk.Selection) : Prop :=
  Forall (λ kv, kv.2 ∈ variationsOf kv.1) sel.

(** The option prices of a selection, added up. *)
Definition surcharge (sel : Kiosk.Selection) : Z :=
  foldl (λ sum kv, sum + VariationOption.price kv.2) 0 sel.

(** What the clerk does to the cart of the counter screen. *)
Inductive CartAction : Type :=
  | TapItem (item : MenuItem.t)
  | ChangeQuantity (itemId : Z) (delta : Z).

Definition applyCartAction (cart : list CartItem.t) (a : CartAction)
    : list CartItem.t :=
  match a with
  | TapItem item => OrderSystem.addToCart item cart
  | ChangeQuantity itemId delta => OrderSystem.updateQuantity itemId delta cart
  end.

(** The exact sum of price times quantity over the lines of a cart, and
    the exact number of pieces in it. *)
Definition exactTotal (cart : list CartItem.t) : Z :=
  foldr (λ item sum, linePrice item * CartItem.quantity item + sum) 0 cart.

Definition exactCount (cart : list CartItem.t) : Z :=
  foldr (λ item sum, CartItem.quantity item + sum) 0 cart.

(** The lines carry amounts that are not negative. *)
Definition nonNegative (cart : list CartItem.t) : Prop :=
  Forall (λ i, 0 ≤ linePrice i ∧ 0 ≤ CartItem.quantity i) cart.

(** A listener whose body leaves the bus alone. *)
Definition quiet : Listener → DBEvent → list BusOp := λ _ _, [].

(** A listener environment in which listener 1, when called, subscribes
    listener 9 and unsubscribes listener 2. *)
Definition meddling : Listener → DBEvent → list BusOp :=
  λ l _, if decide (l = 1%nat)
         then [DoSubscribe 9%nat; DoUnsubscribe 2%nat] else [].

Definition emptyDB : DB := mkDB (mkStorage None None None) [] [] [].

(** ** A shop to run the operations on

    The zone is UTC+06:30.  [orderNoon] and [orderLastMs] fall on the local
    day that starts at 1699896600000, the second on its last millisecond;
    [orderNextDay] is stamped one millisecond later. *)

Definition yangonOffset : Z := 23400000.

Definition espresso : MenuItem.t :=
  MenuItem.mk 1 "Signature Espresso" 3500 "Coffee" None
    (Some "Rich, full-bodied espresso shot.").

Definition muffin : MenuItem.t :=
  MenuItem.mk 3 "Blueberry Muffin" 4000 "Pastry" None
    (Some "Freshly baked with real blueberries.").

Definition latte : NewMenuItem.t :=
  NewMenuItem.mk "Latte" 5000 "Coffee" None None.

Definition mocha : NewMenuItem.t :=
  NewMenuItem.mk "Mocha" 5500 "Coffee" None None.

Definition sampleItems : list CartItem.t :=
  [ CartItem.mk espresso 2 None None; CartItem.mk muffin 1 None None ].

Definition orderNoon : Order.t :=
  Order.mk 1001 1699950000000 "T1" "Mo" None sampleItems 11000 pending.

Definition orderLastMs : Order.t :=
  Order.mk 1002 1699982999999 "T2" "Zaw" None sampleItems 11000 preparing.

Definition orderNextDay : Order.t :=
  Order.mk 1003 1699983000000 "T3" "Aye" None sampleItems 11000 pending.

Definition mo : Customer.data :=
  Customer.mkData "Mo" "09123" "Yangon" (Some "x").

Definition zaw : Customer.data :=
  Customer.mkData "Zaw" "09456" "Mandalay" (Some "y").

(** Orders stored in insertion order, two listeners registered. *)
Definition sampleDB : DB :=
  mkDB (mkStorage (Some INITIAL_MENU)
          (Some [orderNoon; orderNextDay; orderLastMs])
          (Some [Customer.of_data mo (customerIdAt 1699000000000)]))
       [1%nat; 2%nat] [] [].

(** A kiosk session: a logged-in customer at table T7 with two lines in
    the cart, a large espresso taken twice and a muffin. *)

Definition moCustomer : Customer.t :=
  Customer.of_data mo (customerIdAt 1699000000000).

Definition largeEspressoLine : CartItem.t :=
  CartItem.mk (withPrice 4000 espresso) 2 (Some "Size: Large")
    (Some "1-1699950000000").

Definition muffinLine : CartItem.t :=
  CartItem.mk muffin 1 (Some "") (Some "3-1699950000100").

Definition sampleKiosk : Kiosk.t :=
  Kiosk.mk [largeEspressoLine; muffinLine] "T7" (Some moCustomer) None None
    false [] false true None.

(** An order placed from the kiosk at the same instant as [orderNoon]. *)
Definition orderNoonToo : Order.t :=
  Order.mk 1004 1699950000000 "T4" "Su" None sampleItems 11000 pending.


(** * Properties *)

(** ** The sort *)

Section SortFacts.
Context {A : Type} (compareFn : A → A → Z).

Lemma sort_insert_Permutation x l :
  sort_insert compareFn x l ≡ₚ x :: l.
Proof.
  induction l as [|y l IH]; simpl; [done|].
  case_decide; [done|]. by rewrite IH, Permutation_swap.
Qed.

Lemma array_sort_Permutation l : array_sort compareFn l ≡ₚ l.
Proof.
  induction l as [|x l IH]; simpl; [done|].
  by rewrite sort_insert_Permutation, IH.
Qed.

Lemma elem_of_array_sort x l : x ∈ array_sort compareFn l ↔ x ∈ l.
Proof. by rewrite array_sort_Permutation. Qed.

Lemma length_array_sort l : length (array_sort compareFn l) = length l.
Proof. by rewrite array_sort_Permutation. Qed.
End SortFacts.

Lemma sort_insert_sorted o l :
  StronglySorted newerFirst l →
  StronglySorted newerFirst (sort_insert byTimestampDesc o l).
Proof.
  induction 1 as [|y l Hl IH Hy]; simpl.
  - repeat constructor.
  - unfold byTimestampDesc at 1. case_decide as Hc.
    + constructor; [by constructor|].
      constructor; [unfold newerFirst; lia|].
      eapply Forall_impl; [exact Hy|]. unfold newerFirst. intros; lia.
    + constructor; [done|].
      rewrite sort_insert_Permutation.
      constructor; [unfold newerFirst; lia | done].
Qed.

Lemma array_sort_sorted l :
  StronglySorted newerFirst (array_sort byTimestampDesc l).
Proof.
  induction l as [|x l IH]; simpl; [constructor|].
  by apply sort_insert_sorted.
Qed.

(** Sorting what is already in order moves nothing. *)
Lemma array_sort_fixed l :
  StronglySorted newerFirst l → array_sort byTimestampDesc l = l.
Proof.
  induction 1 as [|x l Hl IH Hx]; simpl; [done|].
  rewrite IH. destruct l as [|y l]; simpl; [done|].
  apply Forall_cons in Hx as [Hxy _].
  unfold newerFirst in Hxy. unfold byTimestampDesc at 1. case_decide; [done|lia].
Qed.

Lemma filter_sorted (P : Order.t → Prop) `{!∀ o, Decision (P o)} l :
  StronglySorted newerFirst l → StronglySorted newerFirst (filter P l).
Proof.
  induction 1 as [|x l Hl IH Hx]; [constructor|].
  rewrite filter_cons. case_decide; [|done].
  constructor; [done|].
  apply Forall_forall. intros y [_ Hy]%list_elem_of_filter.
  by eapply Forall_forall in Hx.
Qed.

(** Replacing an element by one of the same timestamp keeps the order. *)
Lemma insert_sorted l i o o' :
  l !! i = Some o →
  Order.timestamp o' = Order.timestamp o →
  StronglySorted newerFirst l →
  StronglySorted newerFirst (<[i := o']> l).
Proof.
  intros Hi Hts Hl. revert i Hi.
  induction Hl as [|x l Hl IH Hx]; intros [|i] Hi; simplify_eq/=.
  - constructor; [done|].
    eapply Forall_impl; [exact Hx|].
    unfold newerFirst. intros; lia.
  - constructor; [by eapply IH|].
    apply Forall_insert; [done|].
    eapply Forall_forall in Hx; [|by eapply list_elem_of_lookup_2].
    unfold newerFirst in *. lia.
Qed.

(** ** The listener bus *)

Section BusFacts.
Context (react : Listener → DBEvent → list BusOp).

Lemma run_ops_frame ops st :
  storage (foldl run_op st ops) = storage st
  ∧ posted (foldl run_op st ops) = posted st
  ∧ calls (foldl run_op st ops) = calls st.
Proof.
  revert st. induction ops as [|op ops IH]; intros st; simpl; [done|].
  destruct (IH (run_op st op)) as (-> & -> & ->). by destruct op.
Qed.

Lemma call_listener_spec event st l :
  storage (call_listener react event st l) = storage st
  ∧ posted (call_listener react event st l) = posted st
  ∧ calls (call_listener react event st l) = calls st ++ [(l, event)].
Proof.
  unfold call_listener.
  by destruct (run_ops_frame (react l event)
    (mkDB (storage st) (listeners st) (posted st)
          (calls st ++ [(l, event)]))) as (-> & -> & ->).
Qed.

(** The walk over the array [ls] calls each of its entries once, in
    order, whatever the bodies do to [this.listeners] meanwhile. *)
Lemma forEach_spec event ls st :
  storage (foldl (call_listener react event) st ls) = storage st
  ∧ posted (foldl (call_listener react event) st ls) = posted st
  ∧ calls (foldl (call_listener react event) st ls)
    = calls st ++ deliveries event ls.
Proof.
  revert st. induction ls as [|l ls IH]; intros st; simpl.
  - by rewrite app_nil_r.
  - destruct (IH (call_listener react event st l)) as (-> & -> & ->).
    destruct (call_listener_spec event st l) as (-> & -> & ->).
    by rewrite <-app_assoc.
Qed.

Lemma notifyListeners_spec event st :
  storage (notifyListeners react event st) = storage st
  ∧ posted (notifyListeners react event st) = posted st
  ∧ calls (notifyListeners react event st)
    = calls st ++ deliveries event (listeners st).
Proof. apply forEach_spec. Qed.

Lemma broadcastUpdate_spec event st :
  storage (broadcastUpdate react event st) = storage st
  ∧ posted (broadcastUpdate react event st) = posted st ++ [event]
  ∧ calls (broadcastUpdate react event st)
    = calls st ++ deliveries event (listeners st).
Proof.
  unfold broadcastUpdate.
  by destruct (notifyListeners_spec event (postMessage event st))
    as (-> & -> & ->).
Qed.

Lemma broadcastUpdate_storage event st :
  storage (broadcastUpdate react event st) = storage st.
Proof. apply broadcastUpdate_spec. Qed.

Lemma broadcastUpdate_posted event st :
  posted (broadcastUpdate react event st) = posted st ++ [event].
Proof. apply broadcastUpdate_spec. Qed.

Lemma broadcastUpdate_calls event st :
  calls (broadcastUpdate react event st)
  = calls st ++ deliveries event (listeners st).
Proof. apply broadcastUpdate_spec. Qed.
End BusFacts.

Lemma timesCalled_app l event log1 log2 :
  timesCalled l event (log1 ++ log2)
  = (timesCalled l event log1 + timesCalled l event log2)%nat.
Proof. unfold timesCalled. by rewrite filter_app, length_app. Qed.

Lemma timesCalled_deliveries l event ls :
  timesCalled l event (deliveries event ls) = registrations l ls.
Proof.
  unfold timesCalled, registrations, deliveries.
  induction ls as [|x ls IH]; [done|].
  rewrite fmap_cons, !filter_cons.
  destruct (decide (x = l)) as [->|Hne].
  - rewrite decide_True by done. simpl. by rewrite IH.
  - rewrite decide_False by congruence. done.
Qed.

Lemma registrations_not_elem_of l ls : l ∉ ls → registrations l ls = 0%nat.
Proof.
  unfold registrations. induction ls as [|x ls IH]; [done|].
  rewrite not_elem_of_cons. intros [Hne Hl].
  rewrite filter_cons_False by congruence. auto.
Qed.

Lemma registrations_unsubscribe l st :
  registrations l (listeners (unsubscribe l st)) = 0%nat.
Proof.
  apply registrations_not_elem_of. simpl.
  rewrite list_elem_of_filter. by intros [? _].
Qed.

(** ** Orders *)

Section OrderFacts.
Context (react : Listener → DBEvent → list BusOp).

Lemma getOrders_Permutation st :
  getOrders st ≡ₚ parse (hm_pos_orders (storage st)).
Proof. apply array_sort_Permutation. Qed.

Lemma getOrders_sorted st : StronglySorted newerFirst (getOrders st).
Proof. apply array_sort_sorted. Qed.

(** What a write of [os] followed by a broadcast leaves in the store. *)
Lemma storage_written_orders event os st :
  storage (broadcastUpdate react event (set_orders os st))
  = mkStorage (hm_pos_menu (storage st)) (Some os)
      (hm_pos_customers (storage st)).
Proof. by rewrite broadcastUpdate_storage. Qed.

Lemma getOrders_written event os st :
  getOrders (broadcastUpdate react event (set_orders os st))
  = array_sort byTimestampDesc os.
Proof. unfold getOrders. by rewrite storage_written_orders. Qed.

Lemma getOrders_written_sorted event os st :
  StronglySorted newerFirst os →
  getOrders (broadcastUpdate react event (set_orders os st)) = os.
Proof. intros. rewrite getOrders_written. by apply array_sort_fixed. Qed.

Lemma set_status_sameButStatus s o : sameButStatus o (Order.set_status s o).
Proof. by repeat split. Qed.

Lemma sameButStatus_refl o : sameButStatus o o.
Proof. by repeat split. Qed.

Lemma find_order_None orderId st :
  (∀ o, o ∈ parse (hm_pos_orders (storage st)) → Order.id o ≠ orderId) →
  list_find (λ o, Order.id o = orderId) (getOrders st) = None.
Proof.
  intros Hno. apply list_find_None, Forall_forall. intros o Ho.
  apply Hno. by rewrite <-(getOrders_Permutation st).
Qed.

Lemma find_order_Some orderId st :
  (∃ o, o ∈ parse (hm_pos_orders (storage st)) ∧ Order.id o = orderId) →
  ∃ i order,
    list_find (λ o, Order.id o = orderId) (getOrders st) = Some (i, order).
Proof.
  intros (o & Ho & Hid).
  destruct (list_find_elem_of (λ o, Order.id o = orderId) (getOrders st) o)
    as [[i order] Hfind]; [|done|by eauto].
  by rewrite getOrders_Permutation.
Qed.

Lemma saveOrder_getOrders_Permutation order st :
  getOrders (saveOrder react order st) ≡ₚ order :: getOrders st.
Proof.
  unfold saveOrder. rewrite getOrders_written, array_sort_Permutation.
  by rewrite Permutation_app_comm.
Qed.

Lemma saveOrders_getOrders_Permutation os st :
  getOrders (foldl (λ st o, saveOrder react o st) st os)
  ≡ₚ getOrders st ++ os.
Proof.
  revert st. induction os as [|o os IH]; intros st; simpl.
  - by rewrite app_nil_r.
  - rewrite IH, saveOrder_getOrders_Permutation. simpl.
    apply Permutation_middle.
Qed.
End OrderFacts.

(** * The data access layer and the tracker, claim by claim *)

Section Claims.
Context (react : Listener → DBEvent → list BusOp).
Context (localOffset : Z).

(** C1. [updateOrderStatus(orderId, status)].  When the stored collection
    holds an order with that id, the first such order of the sorted view,
    at position [i], is the one updated: the collection written back is
    that view with position [i] replaced by the same order under the new
    status, so every order keeps its id, timestamp, table, customer, items
    and total, every order at another position is identical, the menu and
    the customers are left as they were, exactly one event
    [STATUS_UPDATE {orderId, status}] is posted, and the local listeners
    are called with it.  When no stored order has that id, the whole state,
    store and event logs included, is unchanged. *)
Theorem updateOrderStatus_changes_only_status st orderId status :
  let stored := parse (hm_pos_orders (storage st)) in
  let st' := updateOrderStatus react orderId status st in
  ((∃ o, o ∈ stored ∧ Order.id o = orderId) →
   ∃ i order,
     getOrders st !! i = Some order
     ∧ Order.id order = orderId
     ∧ hm_pos_orders (storage st')
       = Some (<[i := Order.set_status status order]> (getOrders st))
     ∧ getOrders st' = <[i := Order.set_status status order]> (getOrders st)
     ∧ (∀ j o, getOrders st !! j = Some o →
          ∃ o', getOrders st' !! j = Some o'
                ∧ sameButStatus o o'
                ∧ (j ≠ i → o' = o)
                ∧ (j = i → Order.status o' = status))
     ∧ length (getOrders st') = length (getOrders st)
     ∧ hm_pos_menu (storage st') = hm_pos_menu (storage st)
     ∧ hm_pos_customers (storage st') = hm_pos_customers (storage st)
     ∧ posted st' = posted st ++ [STATUS_UPDATE orderId status]
     ∧ calls st'
       = calls st ++ deliveries (STATUS_UPDATE orderId status) (listeners st))
  ∧ ((∀ o, o ∈ stored → Order.id o ≠ orderId) → st' = st).
Proof.
  intros stored st'. split.
  - intros Hex. destruct (find_order_Some orderId st Hex) as (i & order & Hfind).
    pose proof Hfind as (Hi & Hid & _)%list_find_Some.
    assert (Hst' : st' = broadcastUpdate react (STATUS_UPDATE orderId status)
      (set_orders (<[i := Order.set_status status order]> (getOrders st)) st)).
    { subst st'. unfold updateOrderStatus. by rewrite Hfind. }
    assert (Hview : getOrders st'
      = <[i := Order.set_status status order]> (getOrders st)).
    { rewrite Hst'. apply getOrders_written_sorted.
      eapply insert_sorted; [exact Hi|done|apply getOrders_sorted]. }
    exists i, order. split_and!; try done.
    + by rewrite Hst', storage_written_orders.
    + intros j o Hj. rewrite Hview.
      destruct (decide (j = i)) as [->|Hne].
      * exists (Order.set_status status order).
        assert (o = order) as -> by congruence.
        split_and!; [|apply set_status_sameButStatus|done|done].
        apply list_lookup_insert_eq. by eapply lookup_lt_Some.
      * exists o. rewrite list_lookup_insert_ne by done.
        split_and!; [done|apply sameButStatus_refl|done|done].
    + by rewrite Hview, length_insert.
    + by rewrite Hst', storage_written_orders.
    + by rewrite Hst', storage_written_orders.
    + by rewrite Hst', broadcastUpdate_posted.
    + by rewrite Hst', broadcastUpdate_calls.
  - intros Hno. subst st'. unfold updateOrderStatus.
    by rewrite (find_order_None orderId st Hno).
Qed.

(** C3. [saveOrder(order)] then [getOrders()]: the result holds [order]
    itself, it holds exactly the orders read before plus [order], and it is
    sorted by timestamp, newest first; the same after any sequence of
    saves, in whatever order the orders were inserted. *)
Theorem saveOrder_then_getOrders st order os :
  let st1 := saveOrder react order st in
  let stn := foldl (λ st o, saveOrder react o st) st os in
  order ∈ getOrders st1
  ∧ getOrders st1 ≡ₚ order :: getOrders st
  ∧ StronglySorted newerFirst (getOrders st1)
  ∧ Forall (λ o, o ∈ getOrders stn) os
  ∧ getOrders stn ≡ₚ getOrders st ++ os
  ∧ StronglySorted newerFirst (getOrders stn).
Proof.
  intros st1 stn. split_and!.
  - subst st1. rewrite saveOrder_getOrders_Permutation. apply list_elem_of_here.
  - apply saveOrder_getOrders_Permutation.
  - apply getOrders_sorted.
  - apply Forall_forall. intros o Ho. subst stn.
    rewrite saveOrders_getOrders_Permutation. apply elem_of_app. by right.
  - apply saveOrders_getOrders_Permutation.
  - apply getOrders_sorted.
Qed.

(** C10. [deleteOrder(id)]: the orders written back are the sorted view
    without the orders whose id is [id], the others kept as they are and in
    their order; one [GENERIC_UPDATE] is posted whether or not an order
    matched; a second call leaves the same orders collection as the first. *)
Theorem deleteOrder_removes_matching st id :
  let st' := deleteOrder react id st in
  hm_pos_orders (storage st')
    = Some (filter (λ o, Order.id o ≠ id) (getOrders st))
  ∧ getOrders st' = filter (λ o, Order.id o ≠ id) (getOrders st)
  ∧ (∀ o, o ∈ getOrders st' ↔ o ∈ getOrders st ∧ Order.id o ≠ id)
  ∧ hm_pos_menu (storage st') = hm_pos_menu (storage st)
  ∧ hm_pos_customers (storage st') = hm_pos_customers (storage st)
  ∧ posted st' = posted st ++ [GENERIC_UPDATE]
  ∧ calls st' = calls st ++ deliveries GENERIC_UPDATE (listeners st)
  ∧ storage (deleteOrder react id st') = storage st'.
Proof.
  intros st'.
  assert (Hview : getOrders st' = filter (λ o, Order.id o ≠ id) (getOrders st)).
  { apply getOrders_written_sorted, filter_sorted, getOrders_sorted. }
  assert (Hstore : storage st'
    = mkStorage (hm_pos_menu (storage st))
        (Some (filter (λ o, Order.id o ≠ id) (getOrders st)))
        (hm_pos_customers (storage st))).
  { apply storage_written_orders. }
  split_and!.
  - by rewrite Hstore.
  - done.
  - intros o. rewrite Hview, list_elem_of_filter. tauto.
  - by rewrite Hstore.
  - by rewrite Hstore.
  - subst st'. unfold deleteOrder. by rewrite broadcastUpdate_posted.
  - subst st'. unfold deleteOrder. by rewrite broadcastUpdate_calls.
  - unfold deleteOrder at 1. rewrite storage_written_orders, Hview, Hstore.
    simpl. do 2 f_equal. apply list_filter_filter_l. tauto.
Qed.

Lemma applyMenuEdit_orders st e :
  hm_pos_orders (storage (applyMenuEdit react st e))
  = hm_pos_orders (storage st).
Proof.
  destruct e as [item now|item|id]; simpl.
  - by rewrite broadcastUpdate_storage.
  - unfold updateMenuItem.
    destruct (list_find _ _) as [[index ?]|]; [|done].
    by rewrite broadcastUpdate_storage.
  - unfold deleteMenuItem. by rewrite broadcastUpdate_storage.
Qed.

(** C6. Whatever sequence of [addMenuItem], [updateMenuItem] and
    [deleteMenuItem] calls follows, the stored orders are the same records
    and [getOrders()] returns the same sequence: each order read before is
    read again at the same position with every field, item prices and total
    included, as it was. *)
Theorem menu_edits_keep_orders st (edits : list MenuEdit) :
  let st' := foldl (applyMenuEdit react) st edits in
  hm_pos_orders (storage st') = hm_pos_orders (storage st)
  ∧ getOrders st' = getOrders st
  ∧ (∀ i o, getOrders st !! i = Some o →
       ∃ o', getOrders st' !! i = Some o'
             ∧ o' = o
             ∧ Order.items o' = Order.items o
             ∧ Order.total o' = Order.total o).
Proof.
  intros st'.
  assert (Hstore : hm_pos_orders (storage st') = hm_pos_orders (storage st)).
  { subst st'. revert st. induction edits as [|e edits IH]; intros st; simpl.
    - done.
    - by rewrite IH, applyMenuEdit_orders. }
  assert (Hview : getOrders st' = getOrders st).
  { unfold getOrders. by rewrite Hstore. }
  split_and!; [done..|].
  intros i o Hi. exists o. by rewrite Hview.
Qed.

(** *** The day window *)

Lemma endOfDay_startOfDay date :
  endOfDay localOffset date = startOfDay localOffset date + (msPerDay - 1).
Proof. unfold endOfDay, startOfDay, setHours, msPerDay. lia. Qed.

Lemma startOfDay_le date : startOfDay localOffset date ≤ date.
Proof.
  unfold startOfDay, setHours.
  pose proof (Z.div_mod (date + localOffset) msPerDay) as Hdm.
  pose proof (Z.mod_pos_bound (date + localOffset) msPerDay) as Hb.
  unfold msPerDay in *. lia.
Qed.

Lemma endOfDay_ge date : date ≤ endOfDay localOffset date.
Proof.
  unfold endOfDay, setHours.
  pose proof (Z.div_mod (date + localOffset) msPerDay) as Hdm.
  pose proof (Z.mod_pos_bound (date + localOffset) msPerDay) as Hb.
  unfold msPerDay in *. lia.
Qed.

(** An instant [r] milliseconds into the local day of [date]. *)
Lemma local_clock_of date r t :
  0 ≤ r < msPerDay →
  t = startOfDay localOffset date + r →
  localDay localOffset t = localDay localOffset date
  ∧ localTimeOfDay localOffset t = r.
Proof.
  intros Hr ->. unfold localDay, localTimeOfDay, startOfDay, setHours.
  set (q := (date + localOffset) `div` msPerDay).
  replace (q * msPerDay + (0 * 3600000 + 0 * 60000 + 0 * 1000 + 0)
           - localOffset + r + localOffset) with (r + q * msPerDay) by lia.
  rewrite Z.div_add, Z.mod_add by done.
  rewrite Z.div_small, Z.mod_small by done. lia.
Qed.

Lemma next_midnight date :
  localDay localOffset (endOfDay localOffset date + 1)
    = localDay localOffset date + 1
  ∧ localTimeOfDay localOffset (endOfDay localOffset date + 1) = 0.
Proof.
  unfold localDay, localTimeOfDay, endOfDay, setHours.
  set (q := (date + localOffset) `div` msPerDay).
  replace (q * msPerDay + (23 * 3600000 + 59 * 60000 + 59 * 1000 + 999)
           - localOffset + 1 + localOffset) with (0 + (q + 1) * msPerDay)
    by (unfold msPerDay; lia).
  rewrite Z.div_add, Z.mod_add by done.
  rewrite Z.div_small, Z.mod_small by done. lia.
Qed.

Lemma getOrdersByDate_valid date st :
  getOrdersByDate localOffset (ValidDate date) st
  = filter (λ order, startOfDay localOffset date ≤ Order.timestamp order
                     ∧ Order.timestamp order ≤ endOfDay localOffset date)
      (getOrders st).
Proof. reflexivity. Qed.

Lemma clearOrdersByDate_valid date st :
  clearOrdersByDate react localOffset (ValidDate date) st
  = (broadcastUpdate react GENERIC_UPDATE
       (set_orders
          (filter (λ order,
                     Order.timestamp order < startOfDay localOffset date
                     ∨ endOfDay localOffset date < Order.timestamp order)
             (getOrders st)) st),
     Z.of_nat (length (getOrders st))
     - Z.of_nat
         (length
            (filter (λ order,
                       Order.timestamp order < startOfDay localOffset date
                       ∨ endOfDay localOffset date < Order.timestamp order)
               (getOrders st)))).
Proof. reflexivity. Qed.

Lemma elem_of_getOrdersByDate date st o :
  o ∈ getOrdersByDate localOffset (ValidDate date) st
  ↔ o ∈ parse (hm_pos_orders (storage st)) ∧ inDay localOffset date o.
Proof.
  rewrite getOrdersByDate_valid.
  rewrite list_elem_of_filter, (getOrders_Permutation st). unfold inDay. tauto.
Qed.

(** C8. [getOrdersByDate(date)] returns exactly the stored orders whose
    timestamp lies between the start and the end of the local day of
    [date], both bounds included, each as often as it is stored and newest
    first.  The start is 00:00:00.000 and the end 23:59:59.999 of that
    local day and [date] lies between them; an order stamped with the end
    is returned, and one stamped a millisecond later, 00:00:00.000 of the
    next local day, is not. *)
Theorem getOrdersByDate_inclusive_window st date :
  let stored := parse (hm_pos_orders (storage st)) in
  let result := getOrdersByDate localOffset (ValidDate date) st in
  let start := startOfDay localOffset date in
  let end_ := endOfDay localOffset date in
  (∀ o, o ∈ result
        ↔ o ∈ stored ∧ start ≤ Order.timestamp o ∧ Order.timestamp o ≤ end_)
  ∧ result ≡ₚ filter (inDay localOffset date) stored
  ∧ StronglySorted newerFirst result
  ∧ start ≤ date ∧ date ≤ end_
  ∧ localDay localOffset start = localDay localOffset date
  ∧ localTimeOfDay localOffset start = 0
  ∧ localDay localOffset end_ = localDay localOffset date
  ∧ localTimeOfDay localOffset end_
    = 23 * 3600000 + 59 * 60000 + 59 * 1000 + 999
  ∧ localDay localOffset (end_ + 1) = localDay localOffset date + 1
  ∧ localTimeOfDay localOffset (end_ + 1) = 0
  ∧ (∀ o, o ∈ stored → Order.timestamp o = end_ → o ∈ result)
  ∧ (∀ o, Order.timestamp o = end_ + 1 → o ∉ result).
Proof.
  intros stored result start end_.
  pose proof (startOfDay_le date) as Hs.
  pose proof (endOfDay_ge date) as He.
  pose proof (endOfDay_startOfDay date) as Hse.
  destruct (local_clock_of date 0 start) as [Hd0 Ht0];
    [done | subst start; lia |].
  destruct (local_clock_of date (msPerDay - 1) end_) as [Hd1 Ht1];
    [done | subst end_; lia |].
  destruct (next_midnight date) as [Hd2 Ht2].
  split_and!; try done.
  - intros o. apply elem_of_getOrdersByDate.
  - subst result. rewrite getOrdersByDate_valid.
    by rewrite (getOrders_Permutation st).
  - apply filter_sorted, getOrders_sorted.
  - intros o Ho Hts. apply elem_of_getOrdersByDate.
    split; [done|]. unfold inDay. fold start end_. lia.
  - intros o Hts [_ [_ Hle]]%elem_of_getOrdersByDate. fold end_ in Hle. lia.
Qed.

Lemma filter_complement_nil {A} (P : A → Prop) `{!∀ x, Decision (P x)} l :
  filter P (filter (λ x, ¬ P x) l) = [].
Proof.
  induction l as [|x l IH]; [done|].
  rewrite filter_cons. case_decide; [|done].
  by rewrite filter_cons_False.
Qed.

Lemma clearOrdersByDate_kept date st :
  filter (λ order, Order.timestamp order < startOfDay localOffset date
                   ∨ endOfDay localOffset date < Order.timestamp order)
    (getOrders st)
  = filter (λ o, ¬ inDay localOffset date o) (getOrders st).
Proof. apply list_filter_iff. intros o. unfold inDay. lia. Qed.

(** X24. [clearOrdersByDate(date)] for a valid date: the orders written
    back are the sorted view without the orders of the local day of
    [date]; together with what [getOrdersByDate(date)] returned before the
    call they make up the orders held before, the count returned is the
    number of orders [getOrdersByDate(date)] returned, every order outside
    the day is still there as it was, no order of the day is left, and one
    [GENERIC_UPDATE] is posted. *)
Theorem clearOrdersByDate_removes_the_day st date :
  let st' := (clearOrdersByDate react localOffset (ValidDate date) st).1 in
  let count := (clearOrdersByDate react localOffset (ValidDate date) st).2 in
  let removed := getOrdersByDate localOffset (ValidDate date) st in
  hm_pos_orders (storage st')
    = Some (filter (λ o, ¬ inDay localOffset date o) (getOrders st))
  ∧ getOrders st' = filter (λ o, ¬ inDay localOffset date o) (getOrders st)
  ∧ removed ++ getOrders st' ≡ₚ getOrders st
  ∧ count = Z.of_nat (length removed)
  ∧ (∀ o, o ∈ getOrders st'
          ↔ o ∈ getOrders st ∧ o ∉ removed)
  ∧ getOrdersByDate localOffset (ValidDate date) st' = []
  ∧ hm_pos_menu (storage st') = hm_pos_menu (storage st)
  ∧ hm_pos_customers (storage st') = hm_pos_customers (storage st)
  ∧ posted st' = posted st ++ [GENERIC_UPDATE].
Proof.
  intros st' count removed.
  assert (Hst' : st' = broadcastUpdate react GENERIC_UPDATE
    (set_orders (filter (λ o, ¬ inDay localOffset date o) (getOrders st)) st)).
  { subst st'. rewrite clearOrdersByDate_valid. simpl.
    by rewrite clearOrdersByDate_kept. }
  assert (Hview : getOrders st'
    = filter (λ o, ¬ inDay localOffset date o) (getOrders st)).
  { rewrite Hst'. apply getOrders_written_sorted, filter_sorted,
      getOrders_sorted. }
  assert (Hperm : removed ++ getOrders st' ≡ₚ getOrders st).
  { rewrite Hview. apply (filter_app_complement (inDay localOffset date)). }
  split_and!; try done.
  - by rewrite Hst', storage_written_orders.
  - subst count. rewrite clearOrdersByDate_valid. simpl.
    rewrite clearOrdersByDate_kept, <-Hview.
    rewrite <-Hperm at 1. rewrite length_app. lia.
  - intros o. rewrite Hview, list_elem_of_filter.
    unfold removed. rewrite getOrdersByDate_valid. rewrite list_elem_of_filter.
    unfold inDay. tauto.
  - rewrite getOrdersByDate_valid. rewrite Hview.
    apply filter_complement_nil.
  - by rewrite Hst', storage_written_orders.
  - by rewrite Hst', storage_written_orders.
  - by rewrite Hst', broadcastUpdate_posted.
Qed.

(** *** Invalid Date *)

Lemma filter_nothing {A} (P : A → Prop) `{!∀ x, Decision (P x)} (l : list A) :
  (∀ x, ¬ P x) → filter P l = [].
Proof.
  intros HP. induction l as [|x l IH]; [done|].
  by rewrite filter_cons_False.
Qed.

(** With Invalid Date both bounds are [NaN] and every comparison fails:
    [getOrdersByDate] keeps no order and so returns none, while the filter
    of [clearOrdersByDate], written as the two strict comparisons, keeps no
    order either and so removes them all. *)
Lemma getOrdersByDate_invalid st :
  getOrdersByDate localOffset InvalidDate st = [].
Proof.
  unfold getOrdersByDate. cbv zeta. apply filter_nothing. simpl. tauto.
Qed.

Lemma clearOrdersByDate_invalid st :
  clearOrdersByDate react localOffset InvalidDate st
  = (broadcastUpdate react GENERIC_UPDATE (set_orders [] st),
     Z.of_nat (length (getOrders st))).
Proof.
  unfold clearOrdersByDate. cbv zeta.
  rewrite filter_nothing by (simpl; tauto). simpl. f_equal. lia.
Qed.

(** *** Ids drawn from the clock *)

Lemma addMenuItem_menuIds item now st :
  menuIds (addMenuItem react item now st).1 = menuIds st ++ [now].
Proof.
  unfold menuIds, getMenu, addMenuItem. simpl.
  rewrite broadcastUpdate_storage. simpl. by rewrite fmap_app.
Qed.

Lemma addMenuItems_menuIds requests st :
  menuIds (addMenuItems react st requests) = menuIds st ++ requests.*2.
Proof.
  revert st. induction requests as [|[item now] requests IH]; intros st.
  - simpl. by rewrite app_nil_r.
  - change (addMenuItems react st ((item, now) :: requests))
      with (addMenuItems react (addMenuItem react item now st).1 requests).
    rewrite IH, addMenuItem_menuIds. by rewrite <-app_assoc.
Qed.

(** C5, as the code has it.  [addMenuItem] returns the clock reading of the
    call and appends the item under that id, without looking at the ids in
    the menu.  After a sequence of calls the ids of the menu are the ids it
    had followed by the readings, so they are pairwise distinct exactly
    when those are: in particular when the menu had no duplicate and the
    readings differ from one another and from every id it held. *)
Theorem addMenuItem_ids_follow_clock st item now requests :
  let st1 := (addMenuItem react item now st).1 in
  let stn := addMenuItems react st requests in
  (addMenuItem react item now st).2 = now
  ∧ getMenu st1 = getMenu st ++ [NewMenuItem.with_id item now]
  ∧ menuIds stn = menuIds st ++ requests.*2
  ∧ (NoDup (menuIds stn) ↔ NoDup (menuIds st ++ requests.*2))
  ∧ (NoDup (menuIds st) →
     NoDup requests.*2 →
     (∀ t, t ∈ requests.*2 → t ∉ menuIds st) →
     NoDup (menuIds stn)).
Proof.
  intros st1 stn.
  assert (Hids : menuIds stn = menuIds st ++ requests.*2)
    by apply addMenuItems_menuIds.
  split_and!; [done| |done|by rewrite Hids|].
  - subst st1. unfold getMenu, addMenuItem. simpl.
    by rewrite broadcastUpdate_storage.
  - intros Hst Hreq Hfresh. rewrite Hids. apply NoDup_app.
    split_and!; [done| |done]. intros x Hx Hx'. by eapply Hfresh.
Qed.

Lemma customerIdAt_inj now now' :
  customerIdAt now = customerIdAt now' → now = now'.
Proof.
  unfold customerIdAt. intros H.
  apply (inj (String.append "CUST-")) in H. by apply (inj pretty) in H.
Qed.

(** C7, as the code has it.  [registerCustomer(data)] rejects, with the
    message of the duplicate-phone error, exactly when a stored customer
    has the phone of [data], and then the whole state is unchanged.
    Otherwise it resolves to [data] under the id issued at the clock
    reading of the call, appends that customer to the stored customers,
    and posts and delivers no event.  The id is issued from the clock
    alone: it is the id of another reading only if the readings are equal,
    so it differs from every stored id issued at another reading. *)
Theorem registerCustomer_duplicate_phone st customerData now :
  let stored := getCustomers st in
  let st' := (registerCustomer customerData now st).1 in
  let result := (registerCustomer customerData now st).2 in
  let newCustomer := Customer.of_data customerData (customerIdAt now) in
  ((∃ c, c ∈ stored ∧ Customer.phone c = Customer.d_phone customerData)
   ↔ result = Rejected "Phone number already registered.")
  ∧ (result = Rejected "Phone number already registered." → st' = st)
  ∧ ((∀ c, c ∈ stored → Customer.phone c ≠ Customer.d_phone customerData) →
     result = Resolved newCustomer
     ∧ hm_pos_customers (storage st') = Some (stored ++ [newCustomer])
     ∧ newCustomer ∈ getCustomers st'
     ∧ hm_pos_menu (storage st') = hm_pos_menu (storage st)
     ∧ hm_pos_orders (storage st') = hm_pos_orders (storage st)
     ∧ posted st' = posted st
     ∧ calls st' = calls st
     ∧ listeners st' = listeners st)
  ∧ (∀ now', customerIdAt now' = Customer.id newCustomer ↔ now' = now)
  ∧ (∀ c, c ∈ stored →
       (∃ now', now' ≠ now ∧ Customer.id c = customerIdAt now') →
       Customer.id c ≠ Customer.id newCustomer).
Proof using Type.
  clear react localOffset.
  intros stored st' result newCustomer.
  subst st' result. unfold registerCustomer. fold (getCustomers st).
  fold stored.
  destruct (list_find _ stored) as [[i c]|] eqn:Hfind.
  - apply list_find_Some in Hfind as (Hi & Hphone & _).
    apply list_elem_of_lookup_2 in Hi. simpl.
    split_and!; [naive_solver|done|naive_solver| |].
    + intros now'. split; [apply customerIdAt_inj|by intros ->].
    + intros c' _ (now' & Hne & ->) Heq. by apply customerIdAt_inj in Heq.
  - apply list_find_None in Hfind. rewrite Forall_forall in Hfind. simpl.
    split_and!.
    + split; [|done]. intros (c & Hc & Hphone). by destruct (Hfind c Hc).
    + done.
    + intros _. split_and!; try done.
      unfold getCustomers. simpl. apply elem_of_app. right.
      apply list_elem_of_here.
    + intros now'. split; [apply customerIdAt_inj|by intros ->].
    + intros c' _ (now' & Hne & ->) Heq. by apply customerIdAt_inj in Heq.
Qed.

(** *** Delivery *)

Lemma registrations_cons l x ls :
  registrations l (x :: ls)
  = ((if decide (x = l) then 1 else 0) + registrations l ls)%nat.
Proof. unfold registrations. rewrite filter_cons. by case_decide. Qed.

Lemma registrations_NoDup l ls :
  NoDup ls → l ∈ ls → registrations l ls = 1%nat.
Proof.
  induction 1 as [|x ls Hx Hls IH]; [by intros ?%elem_of_nil|].
  rewrite registrations_cons, elem_of_cons. intros [Heq|Hl].
  - subst x. rewrite decide_True by done.
    by rewrite registrations_not_elem_of.
  - rewrite decide_False; [by apply IH|]. by intros ->.
Qed.

(** C2, as the code has it.  One publish calls the listeners of the array
    held at publish time, one call per entry and in order, whatever the
    bodies subscribe or unsubscribe meanwhile.  So a listener is called
    with the event once for each registration it has in that array: once
    when it is registered once (as every listener is when the registered
    functions are distinct), and not at all when it was never registered or
    after the capability returned by [subscribe] was used, which removes
    every registration of that function.  Each [subscribe] adds one
    registration.  [updateOrderStatus] on a stored order delivers
    [STATUS_UPDATE {orderId, status}] that way, and a message received
    from another context is delivered to the local listeners the same
    way. *)
Theorem publish_calls_each_registration st event l :
  let st' := broadcastUpdate react event st in
  calls st' = calls st ++ deliveries event (listeners st)
  ∧ timesCalled l event (calls st')
    = (timesCalled l event (calls st) + registrations l (listeners st))%nat
  ∧ (NoDup (listeners st) → l ∈ listeners st →
     timesCalled l event (calls st')
     = (timesCalled l event (calls st) + 1)%nat)
  ∧ (l ∉ listeners st →
     timesCalled l event (calls st') = timesCalled l event (calls st))
  ∧ timesCalled l event (calls (broadcastUpdate react event (unsubscribe l st)))
    = timesCalled l event (calls st)
  ∧ registrations l (listeners (subscribe l st))
    = (registrations l (listeners st) + 1)%nat
  ∧ (∀ orderId status,
       (∃ o, o ∈ parse (hm_pos_orders (storage st)) ∧ Order.id o = orderId) →
       calls (updateOrderStatus react orderId status st)
       = calls st ++ deliveries (STATUS_UPDATE orderId status) (listeners st))
  ∧ calls (onmessage react (Some event) st)
    = calls st ++ deliveries event (listeners st).
Proof.
  intros st'.
  assert (Hcount : ∀ st0, timesCalled l event (calls (broadcastUpdate react event st0))
    = (timesCalled l event (calls st0) + registrations l (listeners st0))%nat).
  { intros st0.
    by rewrite broadcastUpdate_calls, timesCalled_app, timesCalled_deliveries. }
  split_and!.
  - apply broadcastUpdate_calls.
  - apply Hcount.
  - intros Hnd Hl. subst st'. by rewrite Hcount, registrations_NoDup.
  - intros Hl. subst st'. rewrite Hcount, registrations_not_elem_of by done. lia.
  - rewrite Hcount, registrations_unsubscribe. simpl. lia.
  - unfold registrations. simpl. rewrite filter_app, length_app.
    by rewrite filter_cons_True, filter_nil.
  - intros orderId status Hex.
    destruct (find_order_Some orderId st Hex) as (i & order & Hfind).
    unfold updateOrderStatus. rewrite Hfind.
    by rewrite broadcastUpdate_calls.
  - apply notifyListeners_spec.
Qed.

(** *** The tracker *)

(** C4, as the code has it.  One run of [checkStatus] that finds the
    tracked order, with a previous snapshot [prev]: the soft alert is
    raised exactly when the snapshot is [pending] and the fresh status is
    [preparing]; the prominent alert is raised and the tracking view is
    un-minimized exactly when the fresh status is [ready] and the snapshot
    is not; the fresh order becomes the snapshot.  Without a previous
    snapshot the run only stores the fresh order. *)
Theorem checkStatus_alerts st activeOrderId prev fresh i :
  list_find (λ o, Order.id o = activeOrderId) (getOrders st) = Some (i, fresh) →
  let effects := checkStatus activeOrderId (Some prev) st in
  (softAlert effects
   ↔ Order.status prev = pending ∧ Order.status fresh = preparing)
  ∧ (prominentAlert effects
     ↔ Order.status fresh = ready ∧ Order.status prev ≠ ready)
  ∧ (setIsTrackingMinimized false ∈ effects
     ↔ Order.status fresh = ready ∧ Order.status prev ≠ ready)
  ∧ setActiveOrder fresh ∈ effects
  ∧ checkStatus activeOrderId None st = [setActiveOrder fresh].
Proof using Type.
  clear react localOffset.
  intros Hfind effects. subst effects.
  unfold checkStatus, softAlert, prominentAlert. rewrite Hfind.
  split_and!; [| | | |done];
    repeat case_decide;
    rewrite ?elem_of_app, ?elem_of_cons, ?elem_of_nil;
    intuition (congruence || eauto).
Qed.

End Claims.

(** * The operations on the sample shop *)

Lemma updateOrderStatus_changes_only_status_witness :
  (∃ o, o ∈ parse (hm_pos_orders (storage sampleDB)) ∧ Order.id o = 1002)
  ∧ getOrders (updateOrderStatus quiet 1002 ready sampleDB)
    = [orderNextDay; Order.set_status ready orderLastMs; orderNoon]
  ∧ posted (updateOrderStatus quiet 1002 ready sampleDB)
    = [STATUS_UPDATE 1002 ready]
  ∧ updateOrderStatus quiet 9999 ready sampleDB = sampleDB.
Proof.
  assert (Hex : ∃ o, o ∈ parse (hm_pos_orders (storage sampleDB))
                     ∧ Order.id o = 1002).
  { exists orderLastMs. split; [|reflexivity].
    simpl. do 2 apply list_elem_of_further. apply list_elem_of_here. }
  destruct (updateOrderStatus_changes_only_status quiet sampleDB 1002 ready)
    as [Hfound _].
  destruct (updateOrderStatus_changes_only_status quiet sampleDB 9999 ready)
    as [_ Hmissing].
  destruct (Hfound Hex) as (i & order & _ & _ & _ & _ & _ & _ & _ & _ & Hposted & _).
  split_and!; [exact Hex|reflexivity|exact Hposted|].
  apply Hmissing. intros o Ho. simpl in Ho.
  apply elem_of_cons in Ho as [->|Ho]; [done|].
  apply elem_of_cons in Ho as [->|Ho]; [done|].
  apply elem_of_cons in Ho as [->|Ho]; [done|].
  by apply elem_of_nil in Ho.
Defined.

Lemma publish_calls_each_registration_witness :
  NoDup (listeners sampleDB)
  ∧ (2%nat ∈ listeners sampleDB)
  ∧ (5%nat ∉ listeners sampleDB)
  ∧ timesCalled 2%nat MENU_UPDATE
      (calls (broadcastUpdate quiet MENU_UPDATE sampleDB)) = 1%nat
  ∧ timesCalled 5%nat MENU_UPDATE
      (calls (broadcastUpdate quiet MENU_UPDATE sampleDB)) = 0%nat
  ∧ calls (updateOrderStatus quiet 1001 preparing sampleDB)
    = [(1%nat, STATUS_UPDATE 1001 preparing);
       (2%nat, STATUS_UPDATE 1001 preparing)].
Proof.
  assert (Hnd : NoDup (listeners sampleDB)) by (apply (bool_decide_unpack _); by vm_compute).
  assert (H2 : 2%nat ∈ listeners sampleDB) by (apply (bool_decide_unpack _); by vm_compute).
  assert (H5 : 5%nat ∉ listeners sampleDB) by (apply (bool_decide_unpack _); by vm_compute).
  destruct (publish_calls_each_registration quiet sampleDB MENU_UPDATE 2%nat)
    as (_ & _ & Honce & _).
  destruct (publish_calls_each_registration quiet sampleDB MENU_UPDATE 5%nat)
    as (_ & _ & _ & Hnever & _ & _ & Hstatus & _).
  split_and!; [exact Hnd|exact H2|exact H5|exact (Honce Hnd H2)|exact (Hnever H5)|].
  apply (Hstatus 1001 preparing). exists orderNoon.
  split; [apply list_elem_of_here|reflexivity].
Defined.

(** A dispatch in progress is not disturbed by its listeners: listener 2,
    unsubscribed by listener 1 during the dispatch, is still called, and
    listener 9, subscribed during it, is not; the next publish sees the new
    array. *)
Lemma dispatch_walks_the_array_at_publish_time :
  let st' := broadcastUpdate meddling MENU_UPDATE sampleDB in
  calls st' = [(1%nat, MENU_UPDATE); (2%nat, MENU_UPDATE)]
  ∧ listeners st' = [1%nat; 9%nat]
  ∧ calls (broadcastUpdate quiet GENERIC_UPDATE st')
    = calls st' ++ [(1%nat, GENERIC_UPDATE); (9%nat, GENERIC_UPDATE)].
Proof. by split_and!. Qed.

(** C2, the claim as stated, fails when one function is registered twice:
    it is subscribed at publish time and is called twice, not once; and
    once the capability of one of the two subscriptions is used, the other
    subscription gets no call either. *)
Lemma listener_subscribed_twice_called_twice :
  let st := subscribe 7%nat (subscribe 7%nat emptyDB) in
  let st' := broadcastUpdate quiet MENU_UPDATE st in
  (7%nat ∈ listeners st)
  ∧ timesCalled 7%nat MENU_UPDATE (calls st') = 2%nat
  ∧ timesCalled 7%nat MENU_UPDATE (calls st') ≠ 1%nat
  ∧ timesCalled 7%nat MENU_UPDATE
      (calls (broadcastUpdate quiet MENU_UPDATE (unsubscribe 7%nat st)))
    = 0%nat.
Proof.
  split_and!; [apply list_elem_of_here|reflexivity|discriminate|reflexivity].
Qed.

Lemma checkStatus_alerts_witness :
  list_find (λ o, Order.id o = 1002) (getOrders sampleDB)
    = Some (1%nat, orderLastMs)
  ∧ softAlert
      (checkStatus 1002 (Some (Order.set_status pending orderLastMs)) sampleDB).
Proof.
  assert (Hfind : list_find (λ o, Order.id o = 1002) (getOrders sampleDB)
                  = Some (1%nat, orderLastMs)) by reflexivity.
  split; [exact Hfind|].
  destruct (checkStatus_alerts sampleDB 1002
              (Order.set_status pending orderLastMs) orderLastMs 1 Hfind)
    as (Hsoft & _).
  apply Hsoft. split; reflexivity.
Defined.

(** C4, the claim as stated, fails when the order comes back to
    [preparing] from [ready]: it enters [preparing] from another status and
    no soft alert is raised. *)
Lemma back_to_preparing_raises_no_soft_alert :
  let prev := Order.set_status ready orderLastMs in
  let effects := checkStatus 1002 (Some prev) sampleDB in
  list_find (λ o, Order.id o = 1002) (getOrders sampleDB)
    = Some (1%nat, orderLastMs)
  ∧ Order.status orderLastMs = preparing
  ∧ Order.status prev ≠ preparing
  ∧ effects = [setActiveOrder orderLastMs]
  ∧ ¬ softAlert effects.
Proof.
  split_and!; [reflexivity|reflexivity|discriminate|reflexivity|].
  unfold softAlert. by intros [=]%list_elem_of_singleton.
Qed.

Lemma addMenuItem_ids_follow_clock_witness :
  NoDup (menuIds sampleDB)
  ∧ NoDup [1699950000000; 1699950000400]
  ∧ NoDup (menuIds (addMenuItems quiet sampleDB
             [(latte, 1699950000000); (mocha, 1699950000400)])).
Proof.
  assert (H1 : NoDup (menuIds sampleDB)) by (apply (bool_decide_unpack _); by vm_compute).
  assert (H2 : NoDup [1699950000000; 1699950000400])
    by (apply (bool_decide_unpack _); by vm_compute).
  destruct (addMenuItem_ids_follow_clock quiet sampleDB latte 0
              [(latte, 1699950000000); (mocha, 1699950000400)])
    as (_ & _ & _ & _ & Hfresh).
  split_and!; [exact H1|exact H2|].
  apply Hfresh; [exact H1|exact H2|].
  intros t Ht.
  apply elem_of_cons in Ht as [->|Ht]; [apply (bool_decide_unpack _); by vm_compute|].
  apply elem_of_cons in Ht as [->|Ht]; [apply (bool_decide_unpack _); by vm_compute|].
  by apply elem_of_nil in Ht.
Defined.

(** C5, the claim as stated, fails when two calls read the same clock
    value: both items are stored under one id. *)
Lemma addMenuItem_same_reading_same_id :
  let st := addMenuItems quiet emptyDB
              [(latte, 1699950000000); (mocha, 1699950000000)] in
  (addMenuItem quiet latte 1699950000000 emptyDB).2
    = (addMenuItem quiet mocha 1699950000000
         (addMenuItem quiet latte 1699950000000 emptyDB).1).2
  ∧ menuIds st = [1699950000000; 1699950000000]
  ∧ ¬ NoDup (menuIds st).
Proof.
  split_and!; [reflexivity|reflexivity|].
  intros Hnd. apply NoDup_cons_1_1 in Hnd. apply Hnd, list_elem_of_here.
Qed.

Lemma registerCustomer_duplicate_phone_witness :
  (∀ c, c ∈ getCustomers sampleDB →
        Customer.phone c ≠ Customer.d_phone zaw)
  ∧ (registerCustomer zaw 1699950000000 sampleDB).2
    = Resolved (Customer.of_data zaw "CUST-1699950000000")
  ∧ (registerCustomer mo 1699950000000 sampleDB).2
    = Rejected "Phone number already registered."
  ∧ (registerCustomer mo 1699950000000 sampleDB).1 = sampleDB.
Proof.
  assert (Hnew : ∀ c, c ∈ getCustomers sampleDB →
                      Customer.phone c ≠ Customer.d_phone zaw).
  { intros c Hc. apply list_elem_of_singleton in Hc as ->. discriminate. }
  destruct (registerCustomer_duplicate_phone sampleDB zaw 1699950000000)
    as (_ & _ & Hok & _).
  destruct (registerCustomer_duplicate_phone sampleDB mo 1699950000000)
    as (_ & Hsame & _).
  destruct (Hok Hnew) as (Hres & _).
  split_and!; [exact Hnew|exact Hres|reflexivity|].
  apply Hsame. reflexivity.
Defined.

(** C7, the claim as stated, fails when two registrations with different
    phones read the same clock value: both succeed and the second customer
    gets the id already issued to the first. *)
Lemma registerCustomer_same_reading_same_id :
  let r1 := registerCustomer mo 1699950000000 emptyDB in
  let r2 := registerCustomer zaw 1699950000000 r1.1 in
  ∃ c1 c2,
    r1.2 = Resolved c1
    ∧ r2.2 = Resolved c2
    ∧ Customer.phone c1 ≠ Customer.phone c2
    ∧ getCustomers r2.1 = [c1; c2]
    ∧ Customer.id c2 = Customer.id c1.
Proof.
  exists (Customer.of_data mo "CUST-1699950000000"),
         (Customer.of_data zaw "CUST-1699950000000").
  split_and!; [reflexivity|reflexivity|discriminate|reflexivity|reflexivity].
Qed.

Lemma menu_edits_keep_orders_witness :
  getOrders sampleDB !! 0%nat = Some orderNextDay
  ∧ getOrders
      (foldl (applyMenuEdit quiet) sampleDB
         [ EditUpdate (MenuItem.mk 1 "Signature Espresso" 6000 "Coffee"
                         None None);
           EditDelete 3 ]) !! 0%nat = Some orderNextDay.
Proof.
  assert (H0 : getOrders sampleDB !! 0%nat = Some orderNextDay) by reflexivity.
  split; [exact H0|].
  destruct (menu_edits_keep_orders quiet sampleDB
    [ EditUpdate (MenuItem.mk 1 "Signature Espresso" 6000 "Coffee" None None);
      EditDelete 3 ]) as (_ & _ & Hsame).
  destruct (Hsame 0%nat orderNextDay H0) as (o' & Ho' & -> & _).
  exact Ho'.
Defined.

Lemma getOrdersByDate_inclusive_window_witness :
  Order.timestamp orderLastMs = endOfDay yangonOffset 1699950000000
  ∧ Order.timestamp orderNextDay = endOfDay yangonOffset 1699950000000 + 1
  ∧ (orderLastMs ∈ getOrdersByDate yangonOffset (ValidDate 1699950000000) sampleDB)
  ∧ (orderNextDay ∉ getOrdersByDate yangonOffset (ValidDate 1699950000000) sampleDB).
Proof.
  destruct (getOrdersByDate_inclusive_window yangonOffset sampleDB
              1699950000000)
    as (_ & _ & _ & _ & _ & _ & _ & _ & _ & _ & _ & Hin & Hout).
  split_and!; [reflexivity|reflexivity| |].
  - apply Hin; [|reflexivity].
    simpl. do 2 apply list_elem_of_further. apply list_elem_of_here.
  - apply Hout. reflexivity.
Defined.

Lemma clearOrdersByDate_removes_the_day_witness :
  (orderNextDay ∈ getOrders sampleDB)
  ∧ (orderNextDay ∉ getOrdersByDate yangonOffset (ValidDate 1699950000000) sampleDB)
  ∧ (orderNextDay
       ∈ getOrders (clearOrdersByDate quiet yangonOffset (ValidDate 1699950000000)
                      sampleDB).1)
  ∧ (clearOrdersByDate quiet yangonOffset (ValidDate 1699950000000) sampleDB).2 = 2.
Proof.
  assert (Hin : orderNextDay ∈ getOrders sampleDB) by apply list_elem_of_here.
  assert (Hout : orderNextDay
                   ∉ getOrdersByDate yangonOffset (ValidDate 1699950000000) sampleDB)
    by (apply (bool_decide_unpack _); by vm_compute).
  destruct (clearOrdersByDate_removes_the_day quiet yangonOffset sampleDB
              1699950000000) as (_ & _ & _ & Hcount & Hkept & _).
  split_and!; [exact Hin|exact Hout| |exact Hcount].
  apply Hkept. split; [exact Hin|exact Hout].
Defined.

Lemma saveOrder_then_getOrders_witness :
  getOrders (saveOrder quiet orderLastMs
               (saveOrder quiet orderNextDay (saveOrder quiet orderNoon emptyDB)))
  = [orderNextDay; orderLastMs; orderNoon]
  ∧ StronglySorted newerFirst
      (getOrders (foldl (λ st o, saveOrder quiet o st) emptyDB
                    [orderNoon; orderNextDay; orderLastMs])).
Proof.
  split; [reflexivity|].
  apply (saveOrder_then_getOrders quiet emptyDB orderNoon
           [orderNoon; orderNextDay; orderLastMs]).
Defined.

Lemma deleteOrder_removes_matching_witness :
  getOrders (deleteOrder quiet 1002 sampleDB) = [orderNextDay; orderNoon]
  ∧ posted (deleteOrder quiet 9999 sampleDB) = [GENERIC_UPDATE]
  ∧ storage (deleteOrder quiet 1002 (deleteOrder quiet 1002 sampleDB))
    = storage (deleteOrder quiet 1002 sampleDB).
Proof.
  split_and!; [reflexivity|reflexivity|].
  apply (deleteOrder_removes_matching quiet sampleDB 1002).
Defined.

(** * Further properties of the data access layer *)

Section MenuFacts.
Context (react : Listener → DBEvent → list BusOp).

Lemma storage_written_menu event m st :
  storage (broadcastUpdate react event (set_menu m st))
  = mkStorage (Some m) (hm_pos_orders (storage st))
      (hm_pos_customers (storage st)).
Proof. by rewrite broadcastUpdate_storage. Qed.

Lemma getMenu_written event m st :
  getMenu (broadcastUpdate react event (set_menu m st)) = m.
Proof. unfold getMenu. by rewrite storage_written_menu. Qed.

(** X1. [updateMenuItem(item)].  When the menu holds an item with the id of
    [item], the first such item, at position [i], is replaced by [item]:
    looking the id up afterwards yields [item] at [i], every other position
    and the length are as before, orders and customers are untouched and
    one [MENU_UPDATE] is posted.  When no item has that id, nothing is
    written and nothing is posted: the state is unchanged. *)
Theorem updateMenuItem_replaces_first st item :
  let st' := updateMenuItem react item st in
  ((∃ x, x ∈ getMenu st ∧ MenuItem.id x = MenuItem.id item) →
   ∃ i old,
     list_find (λ x, MenuItem.id x = MenuItem.id item) (getMenu st)
       = Some (i, old)
     ∧ getMenu st' = <[i := item]> (getMenu st)
     ∧ list_find (λ x, MenuItem.id x = MenuItem.id item) (getMenu st')
       = Some (i, item)
     ∧ (∀ j, j ≠ i → getMenu st' !! j = getMenu st !! j)
     ∧ length (getMenu st') = length (getMenu st)
     ∧ hm_pos_orders (storage st') = hm_pos_orders (storage st)
     ∧ hm_pos_customers (storage st') = hm_pos_customers (storage st)
     ∧ posted st' = posted st ++ [MENU_UPDATE])
  ∧ ((∀ x, x ∈ getMenu st → MenuItem.id x ≠ MenuItem.id item) → st' = st).
Proof.
  intros st'. split.
  - intros (x & Hx & Hid).
    destruct (list_find_elem_of (λ x, MenuItem.id x = MenuItem.id item)
                (getMenu st) x Hx Hid) as [[i old] Hfind].
    assert (Hst' : st' = broadcastUpdate react MENU_UPDATE
                           (set_menu (<[i := item]> (getMenu st)) st)).
    { subst st'. unfold updateMenuItem. by rewrite Hfind. }
    pose proof Hfind as (Hi & _ & Hleast)%list_find_Some.
    assert (Hmenu : getMenu st' = <[i := item]> (getMenu st)).
    { by rewrite Hst', getMenu_written. }
    exists i, old. split_and!; try done.
    + rewrite Hmenu. apply list_find_Some. split_and!.
      * apply list_lookup_insert_eq. by eapply lookup_lt_Some.
      * done.
      * intros j y Hj Hlt. rewrite list_lookup_insert_ne in Hj by lia.
        by eapply Hleast.
    + intros j Hj. rewrite Hmenu. by apply list_lookup_insert_ne.
    + by rewrite Hmenu, length_insert.
    + by rewrite Hst', storage_written_menu.
    + by rewrite Hst', storage_written_menu.
    + by rewrite Hst', broadcastUpdate_posted.
  - intros Hno. subst st'. unfold updateMenuItem.
    assert (list_find (λ x, MenuItem.id x = MenuItem.id item) (getMenu st)
            = None) as ->; [|done].
    apply list_find_None, Forall_forall. exact Hno.
Qed.

(** X2. [deleteMenuItem(id)]: the menu written back is the menu without
    the items of that id, the others kept in their order; none of that id
    is left; one [MENU_UPDATE] is posted even when nothing matched; orders
    and customers are untouched; a second call leaves the same store. *)
Theorem deleteMenuItem_removes_matching st id :
  let st' := deleteMenuItem react id st in
  getMenu st' = filter (λ x, MenuItem.id x ≠ id) (getMenu st)
  ∧ Forall (λ x, MenuItem.id x ≠ id) (getMenu st')
  ∧ (∀ x, x ∈ getMenu st' ↔ x ∈ getMenu st ∧ MenuItem.id x ≠ id)
  ∧ hm_pos_orders (storage st') = hm_pos_orders (storage st)
  ∧ hm_pos_customers (storage st') = hm_pos_customers (storage st)
  ∧ posted st' = posted st ++ [MENU_UPDATE]
  ∧ storage (deleteMenuItem react id st') = storage st'.
Proof.
  intros st'.
  assert (Hmenu : getMenu st' = filter (λ x, MenuItem.id x ≠ id) (getMenu st))
    by apply getMenu_written.
  split_and!; [done| | | | | |].
  - rewrite Hmenu. apply Forall_forall. by intros x [? _]%list_elem_of_filter.
  - intros x. rewrite Hmenu, list_elem_of_filter. tauto.
  - subst st'. unfold deleteMenuItem. by rewrite storage_written_menu.
  - subst st'. unfold deleteMenuItem. by rewrite storage_written_menu.
  - subst st'. unfold deleteMenuItem. by rewrite broadcastUpdate_posted.
  - unfold deleteMenuItem at 1. rewrite storage_written_menu, Hmenu.
    subst st'. unfold deleteMenuItem. rewrite storage_written_menu. simpl.
    do 2 f_equal. apply list_filter_filter_l. tauto.
Qed.

(** X3. Adding an item under a clock reading that is the id of no item of
    the menu and then deleting that id gives back the menu as it was. *)
Theorem addMenuItem_then_deleteMenuItem st item now :
  (∀ x, x ∈ getMenu st → MenuItem.id x ≠ now) →
  getMenu (deleteMenuItem react (addMenuItem react item now st).2
             (addMenuItem react item now st).1)
  = getMenu st.
Proof.
  intros Hfresh. unfold deleteMenuItem. rewrite getMenu_written.
  unfold addMenuItem. simpl. rewrite getMenu_written, filter_app.
  rewrite filter_cons_False, filter_nil, app_nil_r by (simpl; tauto).
  induction (getMenu st) as [|x m IH]; [done|].
  rewrite filter_cons_True by (apply Hfresh, list_elem_of_here).
  f_equal. apply IH. intros y Hy. by apply Hfresh, list_elem_of_further.
Qed.

(** X4. [init()]: it writes each key that was never written, the menu with
    the three starter items and the other two empty, and leaves a written
    key as it is, an emptied menu included; it changes neither the
    listeners nor the event logs, and running it again changes nothing. *)
Theorem init_seeds_once st :
  init (init st) = init st
  ∧ (hm_pos_menu (storage st) = None → getMenu (init st) = INITIAL_MENU)
  ∧ (∀ m, hm_pos_menu (storage st) = Some m → getMenu (init st) = m)
  ∧ getOrders (init st) = getOrders st
  ∧ getCustomers (init st) = getCustomers st
  ∧ is_Some (hm_pos_menu (storage (init st)))
  ∧ is_Some (hm_pos_orders (storage (init st)))
  ∧ is_Some (hm_pos_customers (storage (init st)))
  ∧ listeners (init st) = listeners st
  ∧ posted (init st) = posted st
  ∧ calls (init st) = calls st
  ∧ (∀ id, getMenu (init (deleteMenuItem react id st))
           = getMenu (deleteMenuItem react id st)).
Proof.
  destruct st as [[m o c] ls ps cs].
  split_and!; try done.
  - simpl. by intros ->.
  - simpl. by intros m' [= ->].
  - intros id. unfold getMenu, init. unfold deleteMenuItem.
    by rewrite storage_written_menu.
Qed.
End MenuFacts.

(** ** Customers *)

Lemma registerCustomer_resolved customerData now st c :
  (registerCustomer customerData now st).2 = Resolved c →
  c = Customer.of_data customerData (customerIdAt now)
  ∧ Forall (λ x, Customer.phone x ≠ Customer.d_phone customerData)
      (getCustomers st)
  ∧ getCustomers (registerCustomer customerData now st).1
    = getCustomers st ++ [c].
Proof.
  unfold registerCustomer. fold (getCustomers st).
  destruct (list_find _ (getCustomers st)) as [[i x]|] eqn:Hfind; [done|].
  simpl. intros [= <-]. apply list_find_None in Hfind. done.
Qed.

Lemma registerCustomer_getCustomers customerData now st :
  getCustomers (registerCustomer customerData now st).1 = getCustomers st
  ∨ ((Customer.d_phone customerData ∉ customerPhones st)
     ∧ getCustomers (registerCustomer customerData now st).1
       = getCustomers st
           ++ [Customer.of_data customerData (customerIdAt now)]).
Proof.
  unfold registerCustomer. fold (getCustomers st).
  destruct (list_find _ (getCustomers st)) as [[i x]|] eqn:Hfind;
    [by left|right].
  apply list_find_None in Hfind. rewrite Forall_forall in Hfind.
  split; [|done]. unfold customerPhones.
  intros (x & Hphone & Hx)%list_elem_of_fmap. by apply (Hfind x Hx).
Qed.

(** X5. After a successful registration with a password, logging in with
    the registered phone and that password returns the customer that
    [registerCustomer] returned, and logging in with that phone and any
    other password returns nothing. *)
Theorem registerCustomer_then_loginCustomer st customerData now c password :
  (registerCustomer customerData now st).2 = Resolved c →
  Customer.d_password customerData = Some password →
  let st' := (registerCustomer customerData now st).1 in
  loginCustomer (Customer.d_phone customerData) password st' = Some c
  ∧ (∀ other, other ≠ password →
       loginCustomer (Customer.d_phone customerData) other st' = None).
Proof.
  intros Hres Hpw st'.
  destruct (registerCustomer_resolved _ _ _ _ Hres) as (Hc & Hnew & Hst').
  fold st' in Hst'. unfold loginCustomer. fold (getCustomers st').
  rewrite Hst'. split.
  - rewrite list_find_app_r.
    + subst c. simpl. rewrite decide_True by (by rewrite Hpw). done.
    + apply list_find_None. eapply Forall_impl; [exact Hnew|].
      simpl. tauto.
  - intros other Hother.
    assert (list_find
      (λ x, Customer.phone x = Customer.d_phone customerData
            ∧ Customer.password x = Some other)
      (getCustomers st ++ [c]) = None) as ->; [|done].
    apply list_find_None, Forall_app. split.
    + eapply Forall_impl; [exact Hnew|]. simpl. tauto.
    + apply Forall_singleton. subst c. simpl. rewrite Hpw.
      intros [_ [= ?]]. by apply Hother.
Qed.

(** X6. Phone numbers stay unique.  From a store whose customers have
    pairwise distinct phones, any sequence of [registerCustomer] calls,
    rejected ones included, leads to a store whose customers have pairwise
    distinct phones, and the customers stored before are still there,
    unchanged and in front. *)
Theorem registerCustomers_keep_phones_unique st requests :
  NoDup (customerPhones st) →
  NoDup (customerPhones (registerCustomers st requests))
  ∧ getCustomers st `prefix_of` getCustomers (registerCustomers st requests).
Proof.
  revert st. induction requests as [|[d now] requests IH]; intros st Hnd.
  - done.
  - change (registerCustomers st ((d, now) :: requests))
      with (registerCustomers (registerCustomer d now st).1 requests).
    destruct (registerCustomer_getCustomers d now st) as [Heq|[Hnew Heq]].
    + destruct (IH (registerCustomer d now st).1) as [Hnd' Hpre].
      { unfold customerPhones. by rewrite Heq. }
      split; [done|]. by rewrite <-Heq.
    + destruct (IH (registerCustomer d now st).1) as [Hnd' Hpre].
      { unfold customerPhones. rewrite Heq, fmap_app. simpl.
        apply NoDup_app. split_and!; [done| |apply NoDup_singleton].
        intros p Hp ->%list_elem_of_singleton. by apply Hnew. }
      split; [done|]. etrans; [|exact Hpre]. rewrite Heq.
      by apply prefix_app_r.
Qed.

(** X7. A later registration, accepted or rejected, never takes a login
    away: whoever could log in before gets the same customer after. *)
Theorem loginCustomer_survives_registerCustomer st phone password c
    customerData now :
  loginCustomer phone password st = Some c →
  loginCustomer phone password (registerCustomer customerData now st).1
  = Some c.
Proof.
  unfold loginCustomer. fold (getCustomers st).
  fold (getCustomers (registerCustomer customerData now st).1).
  intros Hlogin.
  destruct (registerCustomer_getCustomers customerData now st)
    as [->|[_ ->]]; [done|].
  destruct (list_find _ (getCustomers st)) as [[i x]|] eqn:Hfind; [|done].
  by erewrite list_find_app_l.
Qed.

(** ** The bus, continued *)

Section BusMore.
Context (react : Listener → DBEvent → list BusOp).

(** X8. A message arriving from another context is handed to the local
    listeners, one call per registration held on arrival; a message without
    a type is handed on as [GENERIC_UPDATE].  Receiving never writes to the
    store and never posts to the channel, so a message is not echoed. *)
Theorem onmessage_delivers_without_echo st data l :
  let event := default GENERIC_UPDATE data in
  let st' := onmessage react data st in
  storage st' = storage st
  ∧ posted st' = posted st
  ∧ calls st' = calls st ++ deliveries event (listeners st)
  ∧ timesCalled l event (calls st')
    = (timesCalled l event (calls st) + registrations l (listeners st))%nat
  ∧ calls (onmessage react None st)
    = calls st ++ deliveries GENERIC_UPDATE (listeners st).
Proof.
  intros event st'.
  destruct (notifyListeners_spec react event st) as (Hs & Hp & Hc).
  split_and!; [done|done|done| |apply notifyListeners_spec].
  subst st'. unfold onmessage. fold event.
  by rewrite Hc, timesCalled_app, timesCalled_deliveries.
Qed.
End BusMore.

Lemma filter_ne_not_elem_of (l : Listener) (ls : list Listener) :
  l ∉ ls → filter (λ x, x ≠ l) ls = ls.
Proof.
  induction ls as [|x ls IH]; [done|].
  rewrite not_elem_of_cons. intros [Hne Hl].
  rewrite filter_cons_True by done. by rewrite IH.
Qed.

Lemma registrations_filter_ne l l' ls :
  l' ≠ l → registrations l' (filter (λ x, x ≠ l) ls) = registrations l' ls.
Proof.
  intros Hne. unfold registrations. f_equal.
  apply list_filter_filter_l. by intros x ->.
Qed.

(** X9. Using the capability that [subscribe] returned for a function that
    was not registered before restores the state exactly.  In any state,
    unsubscribing touches neither the store nor the logs, keeps every
    registration of every other function, and doing it twice is the same
    as doing it once. *)
Theorem unsubscribe_undoes_subscribe st l :
  (l ∉ listeners st → unsubscribe l (subscribe l st) = st)
  ∧ unsubscribe l (unsubscribe l st) = unsubscribe l st
  ∧ (∀ l', l' ≠ l →
       registrations l' (listeners (unsubscribe l st))
       = registrations l' (listeners st))
  ∧ storage (unsubscribe l st) = storage st
  ∧ posted (unsubscribe l st) = posted st
  ∧ calls (unsubscribe l st) = calls st.
Proof.
  split_and!; try done.
  - intros Hl. destruct st as [s ls ps cs]. unfold unsubscribe, subscribe.
    simpl in *. unfold set_listeners. simpl. f_equal.
    rewrite filter_app, filter_ne_not_elem_of by done.
    rewrite filter_cons_False, filter_nil, app_nil_r by (simpl; tauto). done.
  - unfold unsubscribe, set_listeners. simpl. f_equal.
    apply list_filter_filter_l. tauto.
  - intros l' Hne. simpl. by apply registrations_filter_ne.
Qed.

(** ** Orders, continued *)

Section SortMore.
Context (P : Order.t → Prop) `{!∀ o, Decision (P o)}.

Lemma sort_insert_head o l :
  (∀ y, head l = Some y → Order.timestamp y ≤ Order.timestamp o) →
  sort_insert byTimestampDesc o l = o :: l.
Proof.
  destruct l as [|y l]; [done|]. intros Hy. simpl.
  rewrite decide_True; [done|].
  specialize (Hy y eq_refl). unfold byTimestampDesc. lia.
Qed.

(** Filtering a sorted array and inserting commute. *)
Lemma filter_sort_insert o l :
  StronglySorted newerFirst l →
  filter P (sort_insert byTimestampDesc o l)
  = if decide (P o) then sort_insert byTimestampDesc o (filter P l)
    else filter P l.
Proof.
  induction 1 as [|y l Hl IH Hy].
  - simpl. rewrite filter_cons, filter_nil. by case_decide.
  - change (sort_insert byTimestampDesc o (y :: l))
      with (if decide (byTimestampDesc o y ≤ 0) then o :: y :: l
            else y :: sort_insert byTimestampDesc o l).
    destruct (decide (byTimestampDesc o y ≤ 0)) as [Hc|Hc];
      unfold byTimestampDesc in Hc.
    + rewrite (filter_cons _ o). destruct (decide (P o)); [|done].
      rewrite sort_insert_head; [done|].
      intros z Hz.
      apply head_Some_elem_of, list_elem_of_filter in Hz as [_ Hz].
      apply elem_of_cons in Hz as [->|Hz]; [lia|].
      eapply Forall_forall in Hy; [|exact Hz]. unfold newerFirst in Hy. lia.
    + rewrite (filter_cons _ y (sort_insert _ _ _)), IH, (filter_cons _ y l).
      destruct (decide (P y)), (decide (P o)); try done.
      simpl. rewrite decide_False; [done|]. unfold byTimestampDesc. lia.
Qed.

Lemma filter_array_sort l :
  filter P (array_sort byTimestampDesc l)
  = array_sort byTimestampDesc (filter P l).
Proof.
  induction l as [|o l IH]; [done|]. simpl.
  rewrite filter_sort_insert by apply array_sort_sorted.
  rewrite filter_cons. case_decide; [|done]. simpl. by rewrite IH.
Qed.
End SortMore.

(** The sort never reorders what it need not: see through any one
    timestamp, the insertion leaves the array as it was. *)
Lemma sort_insert_stable t o l :
  filter (λ x, Order.timestamp x = t) (sort_insert byTimestampDesc o l)
  = filter (λ x, Order.timestamp x = t) (o :: l).
Proof.
  induction l as [|y l IH]; [done|]. simpl.
  unfold byTimestampDesc at 1. case_decide as Hc; [done|].
  rewrite (filter_cons _ y), IH, !(filter_cons _ o), (filter_cons _ y l).
  destruct (decide (Order.timestamp y = t)), (decide (Order.timestamp o = t));
    try done. lia.
Qed.

(** X10. [getOrders()] is a stable sort of the stored orders: the orders
    that share a timestamp come out in the order they are stored in, and
    reading never reorders a collection that is already newest first. *)
Theorem getOrders_stable st t :
  filter (λ o, Order.timestamp o = t) (getOrders st)
  = filter (λ o, Order.timestamp o = t) (parse (hm_pos_orders (storage st)))
  ∧ (StronglySorted newerFirst (parse (hm_pos_orders (storage st))) →
     getOrders st = parse (hm_pos_orders (storage st))).
Proof.
  split; [|apply array_sort_fixed].
  unfold getOrders. induction (parse (hm_pos_orders (storage st))) as [|o l IH];
    [done|].
  simpl. rewrite sort_insert_stable, !filter_cons. by rewrite IH.
Qed.

Section OrderMore.
Context (react : Listener → DBEvent → list BusOp).
Context (localOffset : Z).

Lemma filter_all {A} (P : A → Prop) `{!∀ x, Decision (P x)} (l : list A) :
  Forall P l → filter P l = l.
Proof.
  induction 1 as [|x l Hx Hl IH]; [done|].
  rewrite filter_cons_True by done. by rewrite IH.
Qed.

(** X11. Saving an order whose id no stored order has and then deleting
    that id gives back what [getOrders()] returned before. *)
Theorem saveOrder_then_deleteOrder st order :
  (∀ o, o ∈ parse (hm_pos_orders (storage st)) →
        Order.id o ≠ Order.id order) →
  getOrders (deleteOrder react (Order.id order) (saveOrder react order st))
  = getOrders st.
Proof.
  intros Hfresh. unfold deleteOrder.
  rewrite getOrders_written_sorted
    by apply filter_sorted, getOrders_sorted.
  unfold saveOrder. rewrite getOrders_written, filter_array_sort, filter_app.
  rewrite (filter_cons_False _ order) by tauto. rewrite filter_nil, app_nil_r.
  rewrite filter_all.
  - apply array_sort_fixed, getOrders_sorted.
  - apply Forall_forall. intros o Ho. apply Hfresh.
    by rewrite <-(getOrders_Permutation st).
Qed.

Lemma updateOrderStatus_found st orderId status i order :
  list_find (λ o, Order.id o = orderId) (getOrders st) = Some (i, order) →
  updateOrderStatus react orderId status st
  = broadcastUpdate react (STATUS_UPDATE orderId status)
      (set_orders (<[i := Order.set_status status order]> (getOrders st)) st)
  ∧ getOrders (updateOrderStatus react orderId status st)
    = <[i := Order.set_status status order]> (getOrders st)
  ∧ list_find (λ o, Order.id o = orderId)
      (getOrders (updateOrderStatus react orderId status st))
    = Some (i, Order.set_status status order).
Proof.
  intros Hfind. pose proof Hfind as (Hi & Hid & Hleast)%list_find_Some.
  assert (Hst' : updateOrderStatus react orderId status st
    = broadcastUpdate react (STATUS_UPDATE orderId status)
        (set_orders (<[i := Order.set_status status order]> (getOrders st))
           st)).
  { unfold updateOrderStatus. by rewrite Hfind. }
  assert (Hview : getOrders (updateOrderStatus react orderId status st)
    = <[i := Order.set_status status order]> (getOrders st)).
  { rewrite Hst'. apply getOrders_written_sorted.
    eapply insert_sorted; [exact Hi|done|apply getOrders_sorted]. }
  split_and!; [done|done|].
  rewrite Hview. apply list_find_Some. split_and!.
  - apply list_lookup_insert_eq. by eapply lookup_lt_Some.
  - done.
  - intros j y Hj Hlt. rewrite list_lookup_insert_ne in Hj by lia.
    by eapply Hleast.
Qed.

(** X12. The last status written wins: updating an order's status and
    then updating it again leaves the store that the second update alone
    would leave; in particular repeating an update changes nothing in the
    store.  Each call on a stored id still posts its own event. *)
Theorem updateOrderStatus_last_write_wins st orderId s1 s2 :
  let st1 := updateOrderStatus react orderId s1 st in
  storage (updateOrderStatus react orderId s2 st1)
  = storage (updateOrderStatus react orderId s2 st)
  ∧ storage (updateOrderStatus react orderId s1 st1) = storage st1
  ∧ getOrders (updateOrderStatus react orderId s2 st1)
    = getOrders (updateOrderStatus react orderId s2 st).
Proof.
  intros st1.
  assert (Hlast : ∀ s, storage (updateOrderStatus react orderId s st1)
                       = storage (updateOrderStatus react orderId s st)).
  { intros s. subst st1.
    destruct (list_find (λ o, Order.id o = orderId) (getOrders st))
      as [[i order]|] eqn:Hfind.
    - destruct (updateOrderStatus_found st orderId s1 i order Hfind)
        as (Hst1 & Hview1 & Hfind1).
      destruct (updateOrderStatus_found _ orderId s _ _ Hfind1)
        as (-> & _ & _).
      destruct (updateOrderStatus_found st orderId s i order Hfind)
        as (-> & _ & _).
      rewrite !storage_written_orders, Hview1, list_insert_insert_eq.
      rewrite Hst1, storage_written_orders. done.
    - unfold updateOrderStatus at 2. by rewrite Hfind. }
  split_and!.
  - apply Hlast.
  - apply Hlast.
  - unfold getOrders. by rewrite Hlast.
Qed.

Lemma checkStatus_found st activeOrderId prev i fresh :
  list_find (λ o, Order.id o = activeOrderId) (getOrders st)
    = Some (i, fresh) →
  checkStatus activeOrderId (Some prev) st
  = (if decide (Order.status prev = pending ∧ Order.status fresh = preparing)
     then [ playNotificationSound sound_preparing;
            addNotification "Order Update" "Your order is being prepared!"
              info ]
     else [])
    ++ (if decide (Order.status prev ≠ ready ∧ Order.status fresh = ready)
        then [ playNotificationSound sound_ready;
               addNotification "Order Ready!"
                 ("Order #" +:+ slice_last 4 (pretty (Order.id fresh))
                    +:+ " is ready for pickup.") success;
               setIsTrackingMinimized false ]
        else [])
    ++ [ setActiveOrder fresh ].
Proof. intros Hfind. unfold checkStatus. rewrite Hfind. by rewrite app_assoc. Qed.

(** X13. From the dashboard to the kiosk.  [updateOrderStatus] on a stored
    id posts exactly one event and calls every registered listener with
    it; that event is one the tracker of that order reacts to and the
    trackers of other orders ignore.  The run of [checkStatus] it triggers
    finds the order under the new status and takes it as the new snapshot;
    it raises the prominent alert when the new status is [ready] and the
    snapshot held was not, and the soft alert when the new status is
    [preparing] and the snapshot held was [pending]. *)
Theorem updateOrderStatus_then_checkStatus st orderId status prev :
  (∃ o, o ∈ parse (hm_pos_orders (storage st)) ∧ Order.id o = orderId) →
  let st' := updateOrderStatus react orderId status st in
  let effects := checkStatus orderId (Some prev) st' in
  (∃ event,
     posted st' = posted st ++ [event]
     ∧ calls st' = calls st ++ deliveries event (listeners st)
     ∧ event = STATUS_UPDATE orderId status
     ∧ tracksEvent orderId event = true
     ∧ (∀ other, other ≠ orderId → tracksEvent other event = false))
  ∧ (∃ fresh, Order.id fresh = orderId
              ∧ Order.status fresh = status
              ∧ last effects = Some (setActiveOrder fresh))
  ∧ (status = ready → Order.status prev ≠ ready → prominentAlert effects)
  ∧ (status = preparing → Order.status prev = pending → softAlert effects).
Proof.
  intros Hex st' effects.
  destruct (find_order_Some orderId st Hex) as (i & order & Hfind).
  destruct (updateOrderStatus_found st orderId status i order Hfind)
    as (Hst' & _ & Hfind').
  pose proof Hfind as (_ & Hid & _)%list_find_Some.
  pose proof (checkStatus_found st' orderId prev i _ Hfind') as Heff.
  fold effects in Heff. simpl in Heff.
  split_and!.
  - exists (STATUS_UPDATE orderId status). split_and!.
    + subst st'. by rewrite Hst', broadcastUpdate_posted.
    + subst st'. by rewrite Hst', broadcastUpdate_calls.
    + done.
    + simpl. by apply bool_decide_eq_true.
    + intros other Hother. simpl. apply bool_decide_eq_false. congruence.
  - exists (Order.set_status status order).
    split_and!; [exact Hid|reflexivity|].
    rewrite Heff, !app_assoc. apply last_snoc.
  - intros -> Hprev. rewrite Heff. unfold prominentAlert.
    rewrite (decide_True (P := Order.status prev ≠ ready ∧ _)) by done.
    rewrite !elem_of_app, !elem_of_cons. tauto.
  - intros -> Hprev. rewrite Heff. unfold softAlert.
    rewrite (decide_True (P := Order.status prev = pending ∧ _)) by done.
    rewrite !elem_of_app, !elem_of_cons. tauto.
Qed.

(** X14. Clearing a day twice, for any date, Invalid Date included: the
    second call removes nothing, returns 0 and leaves the store as the
    first call left it. *)
Theorem clearOrdersByDate_twice st (date : Date) :
  let st1 := (clearOrdersByDate react localOffset date st).1 in
  (clearOrdersByDate react localOffset date st1).2 = 0
  ∧ storage (clearOrdersByDate react localOffset date st1).1 = storage st1.
Proof.
  destruct date as [date|]; intros st1.
  - assert (Hview : getOrders st1
      = filter (λ o, ¬ inDay localOffset date o) (getOrders st)).
    { subst st1. rewrite clearOrdersByDate_valid. simpl.
      rewrite clearOrdersByDate_kept.
      apply getOrders_written_sorted, filter_sorted, getOrders_sorted. }
    assert (Hst1 : storage st1
      = mkStorage (hm_pos_menu (storage st))
          (Some (filter (λ o, ¬ inDay localOffset date o) (getOrders st)))
          (hm_pos_customers (storage st))).
    { subst st1. rewrite clearOrdersByDate_valid. simpl.
      by rewrite clearOrdersByDate_kept, storage_written_orders. }
    assert (Hkeep : filter (λ o, ¬ inDay localOffset date o) (getOrders st1)
                    = getOrders st1).
    { rewrite Hview. apply list_filter_filter_l. tauto. }
    rewrite clearOrdersByDate_valid. simpl.
    rewrite clearOrdersByDate_kept, Hkeep. split; [lia|].
    rewrite storage_written_orders, Hst1, Hview. done.
  - assert (Hview : getOrders st1 = []).
    { subst st1. rewrite clearOrdersByDate_invalid. simpl.
      apply getOrders_written_sorted. constructor. }
    rewrite clearOrdersByDate_invalid, Hview. simpl. split; [done|].
    subst st1. rewrite clearOrdersByDate_invalid. simpl.
    by rewrite !storage_written_orders.
Qed.

(** X15. A saved order shows up in the report of the day it was placed on:
    [getOrdersByDate] of any instant of the local day of its timestamp, the
    timestamp itself included, returns it. *)
Theorem saveOrder_then_getOrdersByDate st order date :
  localDay localOffset date = localDay localOffset (Order.timestamp order) →
  order ∈ getOrdersByDate localOffset (ValidDate date) (saveOrder react order st).
Proof.
  intros Hday. rewrite getOrdersByDate_valid.
  apply list_elem_of_filter. split.
  - assert (Hs : startOfDay localOffset date
                 = startOfDay localOffset (Order.timestamp order)).
    { unfold startOfDay, setHours. unfold localDay in Hday. by rewrite Hday. }
    rewrite (endOfDay_startOfDay localOffset date), Hs.
    pose proof (startOfDay_le localOffset (Order.timestamp order)).
    pose proof (endOfDay_ge localOffset (Order.timestamp order)) as He.
    rewrite endOfDay_startOfDay in He. lia.
  - rewrite saveOrder_getOrders_Permutation. apply list_elem_of_here.
Qed.

Lemma inDay_same_day d1 d2 o :
  localDay localOffset d1 = localDay localOffset d2 →
  inDay localOffset d1 o ↔ inDay localOffset d2 o.
Proof.
  unfold inDay, startOfDay, endOfDay, setHours, localDay. by intros ->.
Qed.

Lemma inDay_other_day d1 d2 o :
  localDay localOffset d1 ≠ localDay localOffset d2 →
  inDay localOffset d2 o → ¬ inDay localOffset d1 o.
Proof.
  unfold inDay, startOfDay, endOfDay, setHours, localDay.
  set (q1 := (d1 + localOffset) `div` msPerDay).
  set (q2 := (d2 + localOffset) `div` msPerDay).
  unfold msPerDay. lia.
Qed.

(** X16. A report belongs to a local day.  Two instants of the same local
    day give the same report; clearing one day leaves the report of every
    other day as it was. *)
Theorem clearOrdersByDate_other_days st d1 d2 :
  (localDay localOffset d1 = localDay localOffset d2 →
   getOrdersByDate localOffset (ValidDate d1) st
   = getOrdersByDate localOffset (ValidDate d2) st)
  ∧ (localDay localOffset d1 ≠ localDay localOffset d2 →
     getOrdersByDate localOffset (ValidDate d2)
       (clearOrdersByDate react localOffset (ValidDate d1) st).1
     = getOrdersByDate localOffset (ValidDate d2) st).
Proof.
  split.
  - intros Hday. rewrite getOrdersByDate_valid.
    apply list_filter_iff. intros o. by apply (inDay_same_day d1 d2 o).
  - intros Hday. rewrite !getOrdersByDate_valid.
    rewrite clearOrdersByDate_valid. simpl.
    rewrite clearOrdersByDate_kept.
    rewrite getOrders_written_sorted by apply filter_sorted, getOrders_sorted.
    apply (list_filter_filter_l (inDay localOffset d2)).
    intros o. by apply inDay_other_day.
Qed.
End OrderMore.

(** * The kiosk cart *)

(** ** Where the arithmetic of doubles is exact *)

Lemma binary64_exact z : Z.abs z ≤ 2 ^ 53 → binary64 z = z.
Proof. intros Hz. unfold binary64. by rewrite decide_True. Qed.

Lemma numAdd_exact x y : 0 ≤ x → 0 ≤ y → x + y ≤ 2 ^ 53 → numAdd x y = x + y.
Proof. intros. apply binary64_exact. lia. Qed.

Lemma numMul_exact x y : 0 ≤ x → 0 ≤ y → x * y ≤ 2 ^ 53 → numMul x y = x * y.
Proof. intros. apply binary64_exact. nia. Qed.

(** The rounding at work beyond [2^53]. *)
Lemma numMul_rounds :
  numMul 9007199254740991 3 = 27021597764222972
  ∧ numAdd (numAdd (2 ^ 55) 500) 500 = 2 ^ 55 + 992
  ∧ numAdd (numAdd (2 ^ 57) 500) 500 = 2 ^ 57 + 1024.
Proof. by vm_compute. Qed.

Lemma exactTotal_cons x l :
  exactTotal (x :: l) = linePrice x * CartItem.quantity x + exactTotal l.
Proof. done. Qed.

Lemma exactTotal_app l1 l2 :
  exactTotal (l1 ++ l2) = exactTotal l1 + exactTotal l2.
Proof.
  induction l1 as [|x l1 IH]; [done|].
  rewrite <-app_comm_cons, !exactTotal_cons, IH. lia.
Qed.

Lemma exactCount_cons x l :
  exactCount (x :: l) = CartItem.quantity x + exactCount l.
Proof. done. Qed.

Lemma exactCount_app l1 l2 :
  exactCount (l1 ++ l2) = exactCount l1 + exactCount l2.
Proof.
  induction l1 as [|x l1 IH]; [done|].
  rewrite <-app_comm_cons, !exactCount_cons, IH. lia.
Qed.

Lemma exact_nonneg cart :
  nonNegative cart → 0 ≤ exactTotal cart ∧ 0 ≤ exactCount cart.
Proof.
  induction 1 as [|x l [Hp Hq] Hl [IHt IHc]]; [done|].
  rewrite exactTotal_cons, exactCount_cons. split; nia.
Qed.

Lemma cartTotal_from a cart :
  nonNegative cart → 0 ≤ a → a + exactTotal cart ≤ 2 ^ 53 →
  foldl (λ sum item,
           numAdd sum (numMul (linePrice item) (CartItem.quantity item)))
    a cart
  = a + exactTotal cart.
Proof.
  intros Hnn. revert a.
  induction Hnn as [|x l [Hp Hq] Hl IH]; intros a Ha Hle.
  - simpl. unfold exactTotal. simpl. lia.
  - rewrite exactTotal_cons in Hle.
    destruct (exact_nonneg l Hl) as [Ht _].
    assert (0 ≤ linePrice x * CartItem.quantity x) by nia.
    rewrite exactTotal_cons. cbn [foldl].
    rewrite numMul_exact, numAdd_exact by lia.
    rewrite IH by lia. lia.
Qed.

(** With whole, non-negative amounts and an exact total of at most [2^53],
    the fold of the code is the exact total. *)
Lemma cartTotal_exact cart :
  nonNegative cart → exactTotal cart ≤ 2 ^ 53 → cartTotal cart = exactTotal cart.
Proof.
  intros Hnn Hle. unfold cartTotal. rewrite cartTotal_from by (done || lia).
  lia.
Qed.



(** A line of the cart replaced by itself under another quantity. *)
Lemma cart_insert_quantity (cart : list CartItem.t) i x q :
  cart !! i = Some x →
  exactCount (<[i := withQuantity q x]> cart)
    = exactCount cart + (q - CartItem.quantity x)
  ∧ exactTotal (<[i := withQuantity q x]> cart)
    = exactTotal cart + linePrice x * (q - CartItem.quantity x).
Proof.
  intros Hi. rewrite insert_take_drop by (by eapply lookup_lt_Some).
  rewrite <-(take_drop_middle cart i x Hi) at 3 6.
  rewrite !exactCount_app, !exactTotal_app, !exactCount_cons, !exactTotal_cons.
  unfold linePrice. simpl. lia.
Qed.


Lemma updateQuantity_other cartId delta (l : list CartItem.t) :
  Forall (λ i, 0 < CartItem.quantity i) l →
  Forall (λ i, CartItem.cartId i ≠ Some cartId) l →
  Kiosk.updateQuantity cartId delta l = l.
Proof.
  unfold Kiosk.updateQuantity.
  induction 1 as [|x l Hx Hl IH]; [done|].
  intros [Hid Hrest]%Forall_cons. simpl in Hid. rewrite fmap_cons.
  rewrite decide_False by exact Hid. rewrite filter_cons_True by exact Hx.
  by rewrite IH.
Qed.

(** X18. [updateQuantity(cartId, delta)] on a cart of positive quantities
    in which one line has that [cartId]: the line gets its quantity raised
    by [delta] when the result is positive and is dropped otherwise; the
    lines before and after it stay as they are, in place.  Whatever the
    cart, no line of zero or negative quantity is left. *)
Theorem updateQuantity_one_line cartId delta l1 x l2 :
  CartItem.cartId x = Some cartId →
  Forall (λ i, 0 < CartItem.quantity i) (l1 ++ l2) →
  Forall (λ i, CartItem.cartId i ≠ Some cartId) (l1 ++ l2) →
  Kiosk.updateQuantity cartId delta (l1 ++ x :: l2)
  = l1
    ++ (if decide (0 < CartItem.quantity x + delta)
        then [withQuantity (CartItem.quantity x + delta) x] else [])
    ++ l2
  ∧ (∀ cart, Forall (λ i, 0 < CartItem.quantity i)
               (Kiosk.updateQuantity cartId delta cart)).
Proof.
  intros Hx [Hq1 Hq2]%Forall_app [Hc1 Hc2]%Forall_app. split.
  - pose proof (updateQuantity_other cartId delta l1 Hq1 Hc1) as H1.
    pose proof (updateQuantity_other cartId delta l2 Hq2 Hc2) as H2.
    unfold Kiosk.updateQuantity in *.
    rewrite fmap_app, filter_app, H1, fmap_cons.
    rewrite (decide_True (P := CartItem.cartId x = Some cartId)) by done.
    rewrite filter_cons, H2. simpl.
    destruct (decide (0 < CartItem.quantity x + delta)).
    + rewrite decide_True by lia. by rewrite Z.max_r by lia.
    + rewrite decide_False by lia. done.
  - intros cart. unfold Kiosk.updateQuantity. apply Forall_forall.
    by intros i [? _]%list_elem_of_filter.
Qed.

(** ** The adjusted price *)

Lemma foldl_add_acc {A} (f : A → Z) (a : Z) (l : list A) :
  foldl (λ sum x, sum + f x) a l = a + foldl (λ sum x, sum + f x) 0 l.
Proof.
  revert a. induction l as [|x l IH]; intros a; simpl; [lia|].
  rewrite (IH (a + f x)), (IH (0 + f x)). lia.
Qed.

Lemma surcharge_cons kv sel :
  surcharge (kv :: sel) = VariationOption.price kv.2 + surcharge sel.
Proof. unfold surcharge. simpl. rewrite foldl_add_acc. lia. Qed.

Lemma surcharge_nonneg sel :
  Forall (λ kv, 0 ≤ VariationOption.price kv.2) sel → 0 ≤ surcharge sel.
Proof.
  induction 1 as [|kv sel Hkv Hsel IH]; [done|].
  rewrite surcharge_cons. lia.
Qed.

(** While the running price stays within [2^53] the additions of
    [getAdjustedPrice] are exact. *)
Lemma getAdjustedPrice_from price sel :
  Forall (λ kv, 0 ≤ VariationOption.price kv.2) sel →
  0 ≤ price →
  price + surcharge sel ≤ 2 ^ 53 →
  foldl (λ price kv,
           if decide (VariationOption.price kv.2 ≠ 0)
           then numAdd price (VariationOption.price kv.2) else price)
    price sel
  = price + surcharge sel.
Proof.
  intros Hsel. revert price.
  induction Hsel as [|kv sel Hkv Hsel IH]; intros price Hp Hle.
  - unfold surcharge. simpl. lia.
  - rewrite surcharge_cons in *. cbn [foldl].
    pose proof (surcharge_nonneg sel Hsel).
    case_decide.
    + rewrite numAdd_exact by lia. rewrite IH by lia. lia.
    + rewrite IH by lia. lia.
Qed.

(** What the table offers under a key: a surcharge of at most 500 for a
    size or a milk, none for anything else. *)
Lemma offered_price key opt :
  opt ∈ variationsOf key →
  0 ≤ VariationOption.price opt ≤ 500
  ∧ (key ≠ "Size" → key ≠ "Milk" → VariationOption.price opt = 0).
Proof.
  unfold variationsOf, VARIATIONS. intros Hopt. simpl in Hopt.
  repeat (case_decide; simpl in Hopt); subst;
    unfold id in Hopt; rewrite ?elem_of_cons, ?elem_of_nil in Hopt;
    repeat (destruct Hopt as [->|Hopt]); try done; simpl;
    (split; [lia|congruence]).
Qed.

Lemma surcharge_bound sel :
  offered sel → NoDup sel.*1 →
  0 ≤ surcharge sel
  ∧ surcharge sel
    ≤ (if decide ("Size" ∈ sel.*1) then 500 else 0)
      + (if decide ("Milk" ∈ sel.*1) then 500 else 0).
Proof.
  induction sel as [|[key opt] sel IH].
  - intros _ _. unfold surcharge. simpl. split; [lia|].
    repeat case_decide; lia.
  - intros [Hopt Hsel]%Forall_cons [Hkey Hnd]%NoDup_cons.
    destruct (IH Hsel Hnd) as [H0 Hle]. clear IH.
    destruct (offered_price key opt Hopt) as [Hp Hzero].
    rewrite surcharge_cons. cbn [fmap list_fmap fst snd] in *.
    split; [lia|].
    destruct (decide (key = "Size")) as [->|HS];
      [|destruct (decide (key = "Milk")) as [->|HM]].
    + rewrite (decide_True (P := "Size" ∈ "Size" :: _))
        by apply list_elem_of_here.
      rewrite (decide_False (P := "Size" ∈ sel.*1)) in Hle by done.
      destruct (decide ("Milk" ∈ sel.*1)) as [Hm|Hm].
      * rewrite decide_True by (by apply list_elem_of_further). lia.
      * rewrite decide_False; [lia|].
        by intros [?|?]%elem_of_cons.
    + rewrite (decide_True (P := "Milk" ∈ "Milk" :: _))
        by apply list_elem_of_here.
      rewrite (decide_False (P := "Milk" ∈ sel.*1)) in Hle by done.
      destruct (decide ("Size" ∈ sel.*1)) as [Hs|Hs].
      * rewrite decide_True by (by apply list_elem_of_further). lia.
      * rewrite decide_False; [lia|].
        by intros [?|?]%elem_of_cons.
    + rewrite (Hzero HS HM).
      destruct (decide ("Size" ∈ sel.*1)) as [Hs|Hs],
               (decide ("Milk" ∈ sel.*1)) as [Hm|Hm].
      * rewrite !decide_True by (by apply list_elem_of_further). lia.
      * rewrite decide_True by (by apply list_elem_of_further).
        rewrite decide_False; [lia|]. intros [?|?]%elem_of_cons; congruence.
      * rewrite decide_False; [|intros [?|?]%elem_of_cons; congruence].
        rewrite decide_True by (by apply list_elem_of_further). lia.
      * rewrite !decide_False; [lia|..];
          intros [?|?]%elem_of_cons; congruence.
Qed.

Lemma selectOption_keys key opt sel :
  (key ∈ sel.*1 → (Kiosk.selectOption key opt sel).*1 = sel.*1)
  ∧ (key ∉ sel.*1 → (Kiosk.selectOption key opt sel).*1 = sel.*1 ++ [key]).
Proof.
  induction sel as [|[k v] sel [IH1 IH2]].
  - split; [by intros ?%elem_of_nil|done].
  - cbn [Kiosk.selectOption]. case_decide as Hk; rewrite !fmap_cons;
      cbn [fst].
    + subst k. split; [done|]. intros []. apply list_elem_of_here.
    + split.
      * intros [?|Hin]%elem_of_cons; [congruence|]. by rewrite IH1.
      * intros Hnot. rewrite IH2; [done|].
        intros Hin. apply Hnot. by apply list_elem_of_further.
Qed.

Lemma selectOption_NoDup key opt sel :
  NoDup sel.*1 → NoDup (Kiosk.selectOption key opt sel).*1.
Proof.
  intros Hnd. destruct (selectOption_keys key opt sel) as [Hin Hnot].
  destruct (decide (key ∈ sel.*1)) as [Hk|Hk].
  - by rewrite Hin.
  - rewrite Hnot by done. apply NoDup_app. split_and!; [done| |apply NoDup_singleton].
    intros x Hx ->%list_elem_of_singleton. by apply Hk.
Qed.

Lemma selectOption_offered key opt sel :
  opt ∈ variationsOf key → offered sel →
  offered (Kiosk.selectOption key opt sel).
Proof.
  intros Hopt. unfold offered. induction 1 as [|[k v] sel Hkv Hsel IH]; simpl.
  - by apply Forall_singleton.
  - case_decide; apply Forall_cons; by split.
Qed.

Lemma openItemModal_offered item :
  offered (Kiosk.openItemModal item) ∧ NoDup (Kiosk.openItemModal item).*1
  ∧ surcharge (Kiosk.openItemModal item) = 0.
Proof.
  unfold Kiosk.openItemModal. case_decide.
  - split_and!; [|by apply (bool_decide_unpack _)|done].
    unfold offered. repeat apply Forall_cons_2; [..|apply Forall_nil_2];
      by apply (bool_decide_unpack _).
  - split_and!; [apply Forall_nil_2|apply NoDup_nil_2|done].
Qed.

Lemma offered_nonneg sel :
  offered sel → Forall (λ kv, 0 ≤ VariationOption.price kv.2) sel.
Proof.
  unfold offered. intros Hsel. eapply Forall_impl; [exact Hsel|].
  intros [key opt] Hopt.
  by destruct (offered_price key opt Hopt) as [[? _] _].
Qed.

(** X19. For an item with a whole price between 0 and [2^53 - 1000], where
    the additions of the code are exact: the adjusted price is the price of
    the item plus the surcharges of the chosen options.  Starting from the
    selection the dialog opens with and choosing, any number of times and
    in any order, options that [VARIATIONS] offers under their key, the
    adjusted price is never below the price of the item and never more
    than 1000 above it; with the selection the dialog opens with it is the
    price of the item. *)
Theorem getAdjustedPrice_bounds item
    (choices : list (string * VariationOption.t)) :
  Forall (λ c, c.2 ∈ variationsOf c.1) choices →
  0 ≤ MenuItem.price item →
  MenuItem.price item + 1000 ≤ 2 ^ 53 →
  let selection :=
    foldl (λ sel c, Kiosk.selectOption c.1 c.2 sel)
      (Kiosk.openItemModal item) choices in
  Kiosk.getAdjustedPrice (Some item) selection
    = MenuItem.price item + surcharge selection
  ∧ MenuItem.price item ≤ Kiosk.getAdjustedPrice (Some item) selection
  ∧ Kiosk.getAdjustedPrice (Some item) selection ≤ MenuItem.price item + 1000
  ∧ Kiosk.getAdjustedPrice (Some item) (Kiosk.openItemModal item)
    = MenuItem.price item.
Proof.
  intros Hchoices Hprice Hmax selection.
  destruct (openItemModal_offered item) as (Hoff0 & Hnd0 & Hzero).
  assert (Hinv : offered selection ∧ NoDup selection.*1).
  { subst selection. revert Hoff0 Hnd0.
    generalize (Kiosk.openItemModal item).
    induction Hchoices as [|[key opt] choices Hc Hcs IH]; intros sel Hoff Hnd.
    - done.
    - simpl. apply IH; [by apply selectOption_offered
                       |by apply selectOption_NoDup]. }
  destruct Hinv as [Hoff Hnd].
  destruct (surcharge_bound selection Hoff Hnd) as [H0 Hle].
  assert (Hcap : surcharge selection ≤ 1000) by (repeat case_decide; lia).
  unfold Kiosk.getAdjustedPrice.
  rewrite !getAdjustedPrice_from
    by (try apply offered_nonneg; done || lia).
  rewrite Hzero. lia.
Qed.

(** * Checkout, the board and the counter *)

Section Consumers.
Context (react : Listener → DBEvent → list BusOp).

Lemma find_saved_order st order :
  (∀ o, o ∈ parse (hm_pos_orders (storage st)) →
        Order.id o ≠ Order.id order) →
  ∃ i, list_find (λ o, Order.id o = Order.id order)
         (getOrders (saveOrder react order st)) = Some (i, order).
Proof.
  intros Hfresh.
  assert (Hin : order ∈ getOrders (saveOrder react order st)).
  { rewrite saveOrder_getOrders_Permutation. apply list_elem_of_here. }
  destruct (list_find_elem_of (λ o, Order.id o = Order.id order) _ order Hin)
    as [[i x] Hfind]; [done|].
  exists i. rewrite Hfind. do 2 f_equal.
  apply list_find_Some in Hfind as (Hx & Hid & _).
  apply list_elem_of_lookup_2 in Hx.
  rewrite saveOrder_getOrders_Permutation in Hx.
  apply elem_of_cons in Hx as [->|Hx]; [done|].
  rewrite getOrders_Permutation in Hx. by destruct (Hfresh x Hx).
Qed.

(** X20. [handleCheckout()] of the kiosk.  Without a logged-in customer it
    only opens the login dialog; with one but with an empty cart or no
    table number it does nothing; in both cases nothing is saved.
    Otherwise one order is saved and announced by [NEW_ORDER]: it is
    [pending], carries the cart as its items, the cart total the kiosk
    computed as its total, and the customer's id; it becomes the tracked
    order and the cart is emptied.  With whole, non-negative prices and
    quantities and an exact sum of price times quantity of at most [2^53],
    where the double arithmetic of the fold is exact, the total is that
    sum.  When no stored order has its id, the first run of the tracker
    finds this very order and raises no alert. *)
Theorem handleCheckout_places_order nowId nowTimestamp nowN1 nowN2 k st :
  let k' := (Kiosk.handleCheckout react nowId nowTimestamp nowN1 nowN2 k st).1 in
  let st' := (Kiosk.handleCheckout react nowId nowTimestamp nowN1 nowN2 k st).2 in
  (Kiosk.currentUser k = None →
   st' = st ∧ Kiosk.showAuthModal k' = true ∧ Kiosk.cart k' = Kiosk.cart k
   ∧ Kiosk.activeOrderId k' = Kiosk.activeOrderId k)
  ∧ (is_Some (Kiosk.currentUser k) →
     Kiosk.cart k = [] ∨ Kiosk.tableNumber k = "" →
     k' = k ∧ st' = st)
  ∧ (∀ user,
       Kiosk.currentUser k = Some user →
       Kiosk.cart k ≠ [] →
       Kiosk.tableNumber k ≠ "" →
       ∃ order,
         Kiosk.activeOrder k' = Some order
         ∧ Kiosk.activeOrderId k' = Some nowId
         ∧ Kiosk.hm_pos_active_order k' = Some (pretty nowId)
         ∧ Kiosk.cart k' = []
         ∧ Order.id order = nowId
         ∧ Order.timestamp order = nowTimestamp
         ∧ Order.status order = pending
         ∧ Order.items order = Kiosk.cart k
         ∧ Order.total order = cartTotal (Order.items order)
         ∧ (nonNegative (Kiosk.cart k) →
            exactTotal (Kiosk.cart k) ≤ 2 ^ 53 →
            Order.total order = exactTotal (Order.items order))
         ∧ Order.customerId order = Some (Customer.id user)
         ∧ Order.tableNumber order = Kiosk.tableNumber k
         ∧ order ∈ getOrders st'
         ∧ posted st' = posted st ++ [NEW_ORDER order]
         ∧ ((∀ o, o ∈ parse (hm_pos_orders (storage st)) →
                  Order.id o ≠ nowId) →
            checkStatus nowId (Kiosk.activeOrder k') st'
            = [setActiveOrder order])).
Proof.
  intros k' st'. subst k' st'. unfold Kiosk.handleCheckout. split_and!.
  - by intros ->.
  - intros [user ->] Hguard. by rewrite decide_True.
  - intros user -> Hcart Htable.
    rewrite decide_False by tauto. cbn [fst snd].
    set (order := Order.mk nowId nowTimestamp (Kiosk.tableNumber k)
                    (Customer.name user) (Some (Customer.id user))
                    (Kiosk.cart k) (cartTotal (Kiosk.cart k)) pending).
    exists order. split_and!; try done.
    + intros Hnn Hle. by apply cartTotal_exact.
    + rewrite saveOrder_getOrders_Permutation. apply list_elem_of_here.
    + unfold saveOrder. by rewrite broadcastUpdate_posted.
    + intros Hfresh. destruct (find_saved_order st order Hfresh) as [i Hfind].
      cbn [Kiosk.activeOrder].
      rewrite (checkStatus_found _ nowId order i order Hfind).
      by rewrite !decide_False by (simpl; intros [? ?]; congruence).
Qed.

Lemma fmap_id_on {A} (f : A → A) (l : list A) :
  Forall (λ x, f x = x) l → f <$> l = l.
Proof.
  induction 1 as [|x l Hx Hl IH]; [done|]. by rewrite fmap_cons, Hx, IH.
Qed.

(** X21. The board's optimistic update agrees with the store when the
    board is up to date.  If the list the board holds is what [getOrders()]
    returns for the store at the click (nothing was saved or changed since
    the board's last reload) and the stored orders have pairwise distinct
    ids, then rewriting the status in the held list gives the list the
    next reload returns after [updateOrderStatus], whether or not an order
    has that id. *)
Theorem optimisticUpdate_agrees_with_reload st orderId status
    (held : list Order.t) :
  held = getOrders st →
  NoDup (Order.id <$> parse (hm_pos_orders (storage st))) →
  AdminDashboard.optimisticUpdate orderId status held
  = getOrders (updateOrderStatus react orderId status st).
Proof.
  intros -> Hnd. rewrite <-(getOrders_Permutation st) in Hnd.
  unfold AdminDashboard.optimisticUpdate.
  destruct (list_find (λ o, Order.id o = orderId) (getOrders st))
    as [[i order]|] eqn:Hfind.
  - destruct (updateOrderStatus_found react st orderId status i order Hfind)
      as (_ & -> & _).
    apply list_find_Some in Hfind as (Hi & Hid & _).
    apply list_eq. intros j. rewrite list_lookup_fmap.
    destruct (decide (j = i)) as [->|Hne].
    + rewrite list_lookup_insert_eq by (by eapply lookup_lt_Some).
      rewrite Hi. simpl. by rewrite decide_True.
    + rewrite list_lookup_insert_ne by done.
      destruct (getOrders st !! j) as [y|] eqn:Hj; [|done]. simpl.
      rewrite decide_False; [done|]. intros Hy. apply Hne.
      eapply NoDup_lookup; [exact Hnd|..]; rewrite list_lookup_fmap.
      * by rewrite Hj; simpl; rewrite Hy.
      * by rewrite Hi; simpl; rewrite Hid.
  - unfold updateOrderStatus. rewrite Hfind.
    apply fmap_id_on. apply list_find_None in Hfind.
    eapply Forall_impl; [exact Hfind|]. intros o Ho. simpl in Ho.
    by rewrite decide_False.
Qed.
End Consumers.

(** ** The cart of the counter screen *)

(** Mapping over the lines of one key is an update in place when the keys
    are pairwise distinct. *)
Lemma fmap_update_unique (g : CartItem.t → CartItem.t) key
    (l : list CartItem.t) i x :
  NoDup (lineId <$> l) →
  l !! i = Some x →
  lineId x = key →
  (λ y, if decide (lineId y = key) then g y else y) <$> l = <[i := g x]> l.
Proof.
  intros Hnd Hi Hkey. apply list_eq. intros j. rewrite list_lookup_fmap.
  destruct (decide (j = i)) as [->|Hne].
  - rewrite list_lookup_insert_eq by (by eapply lookup_lt_Some).
    rewrite Hi. simpl. by rewrite decide_True.
  - rewrite list_lookup_insert_ne by done.
    destruct (l !! j) as [y|] eqn:Hj; [|done]. simpl.
    rewrite decide_False; [done|]. intros Hy. apply Hne.
    eapply NoDup_lookup; [exact Hnd|..]; rewrite list_lookup_fmap.
    + by rewrite Hj; simpl; rewrite Hy.
    + by rewrite Hi; simpl; rewrite Hkey.
Qed.

Lemma lineId_insert_quantity (l : list CartItem.t) i x q :
  l !! i = Some x →
  lineId <$> <[i := withQuantity q x]> l = lineId <$> l.
Proof.
  intros Hi. rewrite list_fmap_insert. apply list_insert_id.
  by rewrite list_lookup_fmap, Hi.
Qed.

Lemma addToCart_cases item prev :
  NoDup (lineId <$> prev) →
  (∃ i x, prev !! i = Some x
          ∧ lineId x = MenuItem.id item
          ∧ OrderSystem.addToCart item prev
            = <[i := withQuantity (CartItem.quantity x + 1) x]> prev)
  ∨ ((MenuItem.id item ∉ lineId <$> prev)
     ∧ OrderSystem.addToCart item prev
       = prev ++ [CartItem.mk item 1 None None]).
Proof.
  intros Hnd. unfold OrderSystem.addToCart.
  destruct (list_find _ prev) as [[i x]|] eqn:Hfind.
  - apply list_find_Some in Hfind as (Hi & Hid & _).
    left. exists i, x. split_and!; [done|done|].
    by apply (fmap_update_unique
                (λ y, withQuantity (CartItem.quantity y + 1) y)).
  - apply list_find_None in Hfind. right. split; [|done].
    intros (y & Hid & Hy)%list_elem_of_fmap.
    eapply Forall_forall in Hfind; [|exact Hy]. done.
Qed.

Lemma addToCart_NoDup item prev :
  NoDup (lineId <$> prev) → NoDup (lineId <$> OrderSystem.addToCart item prev).
Proof.
  intros Hnd.
  destruct (addToCart_cases item prev Hnd)
    as [(i & x & Hi & Hid & ->)|[Hnew ->]].
  - by rewrite lineId_insert_quantity.
  - rewrite fmap_app. apply NoDup_app.
    split_and!; [done| |apply NoDup_singleton].
    by intros id Hin ->%list_elem_of_singleton.
Qed.

(** X22. [addToCart(item)] of the counter screen on a cart with one line
    per menu item: the cart still has one line per menu item, holds a line
    for [item], and has exactly one piece more.  With whole, non-negative
    prices and quantities and a new exact total of at most [2^53], where
    the double arithmetic of the fold is exact, the cart total grows by the
    price of that line (the price the line was created with when it
    existed already). *)
Theorem addToCart_one_more_piece item prev :
  NoDup (lineId <$> prev) →
  let cart' := OrderSystem.addToCart item prev in
  NoDup (lineId <$> cart')
  ∧ exactCount cart' = exactCount prev + 1
  ∧ ∃ line, line ∈ cart'
            ∧ lineId line = MenuItem.id item
            ∧ (nonNegative prev →
               0 ≤ MenuItem.price item →
               exactTotal cart' ≤ 2 ^ 53 →
               cartTotal cart' = cartTotal prev + linePrice line).
Proof.
  intros Hnd cart'. split; [by apply addToCart_NoDup|]. subst cart'.
  destruct (addToCart_cases item prev Hnd)
    as [(i & x & Hi & Hid & ->) | [Hnew ->]].
  - destruct (cart_insert_quantity prev i x (CartItem.quantity x + 1) Hi)
      as [Hc Ht].
    split; [rewrite Hc; lia|].
    exists (withQuantity (CartItem.quantity x + 1) x). split_and!.
    + eapply list_elem_of_lookup_2, list_lookup_insert_eq.
      by eapply lookup_lt_Some.
    + done.
    + intros Hnn Hprice Hle.
      pose proof Hnn as Hx. eapply Forall_forall in Hx;
        [|by eapply list_elem_of_lookup_2]. destruct Hx as [Hxp Hxq].
      rewrite cartTotal_exact; [|apply Forall_insert; [done|]|done].
      * rewrite cartTotal_exact; [|done|].
        -- rewrite Ht. unfold linePrice. simpl. lia.
        -- rewrite Ht in Hle. lia.
      * unfold linePrice in *. simpl. lia.
  - split.
    + rewrite exactCount_app, exactCount_cons. unfold exactCount. simpl. lia.
    + exists (CartItem.mk item 1 None None). split_and!.
      * apply elem_of_app. right. apply list_elem_of_here.
      * done.
      * intros Hnn Hprice Hle.
        assert (Ht : exactTotal (prev ++ [CartItem.mk item 1 None None])
                     = exactTotal prev + MenuItem.price item).
        { rewrite exactTotal_app, exactTotal_cons.
          unfold exactTotal, linePrice. simpl. lia. }
        rewrite cartTotal_exact; [|apply Forall_app; split; [done|]|done].
        -- rewrite cartTotal_exact; [|done|lia].
           rewrite Ht. unfold linePrice. simpl. lia.
        -- apply Forall_singleton. unfold linePrice. simpl. lia.
Qed.

Lemma updateQuantity_invariant itemId delta (cart : list CartItem.t) :
  NoDup (lineId <$> cart) →
  NoDup (lineId <$> OrderSystem.updateQuantity itemId delta cart)
  ∧ Forall (λ i, 0 < CartItem.quantity i)
      (OrderSystem.updateQuantity itemId delta cart).
Proof.
  intros Hnd. unfold OrderSystem.updateQuantity. split.
  - eapply sublist_NoDup; [|apply fmap_sublist, sublist_filter].
    rewrite <-list_fmap_compose.
    erewrite list_fmap_ext; [exact Hnd|]. intros j y _. simpl.
    by case_decide.
  - apply Forall_forall. by intros i [? _]%list_elem_of_filter.
Qed.

(** X23. The cart of the counter screen, from empty, through any sequence
    of item taps and quantity changes: it always has at most one line per
    menu item, and every line has a positive quantity. *)
Theorem counter_cart_invariant (actions : list CartAction) :
  let cart := foldl applyCartAction [] actions in
  NoDup (lineId <$> cart) ∧ Forall (λ i, 0 < CartItem.quantity i) cart.
Proof.
  intros cart. subst cart.
  assert (Hinv : ∀ cart,
    NoDup (lineId <$> cart) ∧ Forall (λ i, 0 < CartItem.quantity i) cart →
    NoDup (lineId <$> foldl applyCartAction cart actions)
    ∧ Forall (λ i, 0 < CartItem.quantity i)
        (foldl applyCartAction cart actions)).
  { induction actions as [|a actions IH]; intros cart [Hnd Hpos]; [done|].
    simpl. apply IH. destruct a as [item|itemId delta]; simpl.
    - split; [by apply addToCart_NoDup|].
      unfold OrderSystem.addToCart.
      destruct (list_find _ cart) as [[i x]|].
      + apply Forall_fmap. eapply Forall_impl; [exact Hpos|].
        intros y Hy. simpl in *. case_decide; simpl; lia.
      + apply Forall_app. split; [done|]. by apply Forall_singleton.
    - by apply updateQuantity_invariant. }
  apply Hinv. split; [apply NoDup_nil_2|apply Forall_nil_2].
Qed.

(** * The further properties on the sample shop *)

Lemma updateMenuItem_replaces_first_witness :
  (∃ x, x ∈ getMenu sampleDB ∧ MenuItem.id x = MenuItem.id (withPrice 6000 espresso))
  ∧ posted (updateMenuItem quiet (withPrice 6000 espresso) sampleDB)
    = posted sampleDB ++ [MENU_UPDATE]
  ∧ updateMenuItem quiet (MenuItem.mk 99 "Scone" 3000 "Pastry" None None)
      sampleDB = sampleDB.
Proof.
  assert (Hex : ∃ x, x ∈ getMenu sampleDB
                     ∧ MenuItem.id x = MenuItem.id (withPrice 6000 espresso)).
  { eexists. split; [apply list_elem_of_here|reflexivity]. }
  destruct (updateMenuItem_replaces_first quiet sampleDB
              (withPrice 6000 espresso)) as [Hfound _].
  destruct (updateMenuItem_replaces_first quiet sampleDB
              (MenuItem.mk 99 "Scone" 3000 "Pastry" None None))
    as [_ Hmissing].
  destruct (Hfound Hex) as (i & old & _ & _ & _ & _ & _ & _ & _ & Hposted).
  split_and!; [exact Hex|exact Hposted|].
  apply Hmissing. intros x Hx. simpl in Hx.
  repeat (apply elem_of_cons in Hx as [->|Hx]; [done|]).
  by apply elem_of_nil in Hx.
Defined.

Lemma addMenuItem_then_deleteMenuItem_witness :
  (∀ x, x ∈ getMenu sampleDB → MenuItem.id x ≠ 1699950000000)
  ∧ getMenu (deleteMenuItem quiet 1699950000000
               (addMenuItem quiet latte 1699950000000 sampleDB).1)
    = INITIAL_MENU.
Proof.
  assert (Hfresh : ∀ x, x ∈ getMenu sampleDB → MenuItem.id x ≠ 1699950000000).
  { intros x Hx. simpl in Hx.
    repeat (apply elem_of_cons in Hx as [->|Hx]; [done|]).
    by apply elem_of_nil in Hx. }
  split; [exact Hfresh|].
  exact (addMenuItem_then_deleteMenuItem quiet sampleDB latte 1699950000000
           Hfresh).
Defined.

Lemma init_seeds_once_witness :
  hm_pos_menu (storage emptyDB) = None
  ∧ getMenu (init emptyDB) = INITIAL_MENU
  ∧ getMenu (init (deleteMenuItem quiet 1 emptyDB)) = [].
Proof.
  destruct (init_seeds_once quiet emptyDB)
    as (_ & Hseed & _ & _ & _ & _ & _ & _ & _ & _ & _ & Hkept).
  split_and!; [reflexivity|exact (Hseed eq_refl)|].
  by rewrite Hkept.
Defined.

Lemma registerCustomer_then_loginCustomer_witness :
  (registerCustomer zaw 1699950000000 sampleDB).2
    = Resolved (Customer.of_data zaw "CUST-1699950000000")
  ∧ loginCustomer "09456" "y" (registerCustomer zaw 1699950000000 sampleDB).1
    = Some (Customer.of_data zaw "CUST-1699950000000")
  ∧ loginCustomer "09456" "z" (registerCustomer zaw 1699950000000 sampleDB).1
    = None.
Proof.
  assert (Hres : (registerCustomer zaw 1699950000000 sampleDB).2
                 = Resolved (Customer.of_data zaw "CUST-1699950000000"))
    by reflexivity.
  destruct (registerCustomer_then_loginCustomer sampleDB zaw 1699950000000
              _ "y" Hres eq_refl) as [Hlogin Hwrong].
  split_and!; [exact Hres|exact Hlogin|].
  apply Hwrong. discriminate.
Defined.

Lemma registerCustomers_keep_phones_unique_witness :
  NoDup (customerPhones sampleDB)
  ∧ NoDup (customerPhones
             (registerCustomers sampleDB
                [(zaw, 1699950000000); (mo, 1699950000500);
                 (zaw, 1699950000900)])).
Proof.
  assert (Hnd : NoDup (customerPhones sampleDB))
    by (apply (bool_decide_unpack _); by vm_compute).
  split; [exact Hnd|].
  apply (registerCustomers_keep_phones_unique sampleDB _ Hnd).
Defined.

Lemma loginCustomer_survives_registerCustomer_witness :
  loginCustomer "09123" "x" sampleDB = Some moCustomer
  ∧ loginCustomer "09123" "x" (registerCustomer zaw 1699950000000 sampleDB).1
    = Some moCustomer.
Proof.
  assert (Hlogin : loginCustomer "09123" "x" sampleDB = Some moCustomer)
    by reflexivity.
  split; [exact Hlogin|].
  exact (loginCustomer_survives_registerCustomer sampleDB "09123" "x"
           moCustomer zaw 1699950000000 Hlogin).
Defined.

Lemma unsubscribe_undoes_subscribe_witness :
  (5%nat ∉ listeners sampleDB)
  ∧ unsubscribe 5%nat (subscribe 5%nat sampleDB) = sampleDB
  ∧ registrations 2%nat (listeners (unsubscribe 1%nat sampleDB))
    = registrations 2%nat (listeners sampleDB).
Proof.
  assert (H5 : 5%nat ∉ listeners sampleDB)
    by (apply (bool_decide_unpack _); by vm_compute).
  destruct (unsubscribe_undoes_subscribe sampleDB 5%nat) as (Hundo & _).
  destruct (unsubscribe_undoes_subscribe sampleDB 1%nat)
    as (_ & _ & Hother & _).
  split_and!; [exact H5|exact (Hundo H5)|].
  apply Hother. discriminate.
Defined.

Lemma getOrders_stable_witness :
  StronglySorted newerFirst
    (parse (hm_pos_orders (storage (deleteOrder quiet 1002 sampleDB))))
  ∧ getOrders (deleteOrder quiet 1002 sampleDB)
    = parse (hm_pos_orders (storage (deleteOrder quiet 1002 sampleDB)))
  ∧ filter (λ o, Order.timestamp o = 1699950000000)
      (getOrders (saveOrder quiet orderNoonToo sampleDB))
    = [orderNoon; orderNoonToo].
Proof.
  assert (Hs : StronglySorted newerFirst
    (parse (hm_pos_orders (storage (deleteOrder quiet 1002 sampleDB))))).
  { change (StronglySorted newerFirst [orderNextDay; orderNoon]).
    repeat constructor. unfold newerFirst. simpl. lia. }
  destruct (getOrders_stable (deleteOrder quiet 1002 sampleDB) 0) as [_ Hfix].
  destruct (getOrders_stable (saveOrder quiet orderNoonToo sampleDB)
              1699950000000) as [Hstable _].
  split_and!; [exact Hs|exact (Hfix Hs)|].
  rewrite Hstable. reflexivity.
Defined.

Lemma stored_ids_of_sampleDB (P : Z → Prop) :
  P 1001 → P 1003 → P 1002 →
  ∀ o, o ∈ parse (hm_pos_orders (storage sampleDB)) → P (Order.id o).
Proof.
  intros H1 H3 H2 o Ho. simpl in Ho.
  repeat (apply elem_of_cons in Ho as [->|Ho]; [done|]).
  by apply elem_of_nil in Ho.
Qed.

Lemma saveOrder_then_deleteOrder_witness :
  (∀ o, o ∈ parse (hm_pos_orders (storage sampleDB)) →
        Order.id o ≠ Order.id orderNoonToo)
  ∧ getOrders (deleteOrder quiet 1004 (saveOrder quiet orderNoonToo sampleDB))
    = [orderNextDay; orderLastMs; orderNoon].
Proof.
  assert (Hfresh : ∀ o, o ∈ parse (hm_pos_orders (storage sampleDB)) →
                        Order.id o ≠ Order.id orderNoonToo)
    by (by apply (stored_ids_of_sampleDB (λ i, i ≠ 1004))).
  split; [exact Hfresh|].
  exact (saveOrder_then_deleteOrder quiet sampleDB orderNoonToo Hfresh).
Defined.

Lemma updateOrderStatus_then_checkStatus_witness :
  (∃ o, o ∈ parse (hm_pos_orders (storage sampleDB)) ∧ Order.id o = 1002)
  ∧ prominentAlert
      (checkStatus 1002 (Some orderLastMs)
         (updateOrderStatus quiet 1002 ready sampleDB)).
Proof.
  assert (Hex : ∃ o, o ∈ parse (hm_pos_orders (storage sampleDB))
                     ∧ Order.id o = 1002).
  { exists orderLastMs. split; [|reflexivity].
    simpl. do 2 apply list_elem_of_further. apply list_elem_of_here. }
  destruct (updateOrderStatus_then_checkStatus quiet sampleDB 1002 ready
              orderLastMs Hex) as (_ & _ & Hready & _).
  split; [exact Hex|]. apply Hready; [reflexivity|discriminate].
Defined.

Lemma saveOrder_then_getOrdersByDate_witness :
  localDay yangonOffset 1699900000000
    = localDay yangonOffset (Order.timestamp orderNoonToo)
  ∧ orderNoonToo
      ∈ getOrdersByDate yangonOffset (ValidDate 1699900000000)
          (saveOrder quiet orderNoonToo sampleDB).
Proof.
  assert (Hday : localDay yangonOffset 1699900000000
                 = localDay yangonOffset (Order.timestamp orderNoonToo))
    by reflexivity.
  split; [exact Hday|].
  exact (saveOrder_then_getOrdersByDate quiet yangonOffset sampleDB
           orderNoonToo 1699900000000 Hday).
Defined.

Lemma clearOrdersByDate_other_days_witness :
  localDay yangonOffset 1699950000000 ≠ localDay yangonOffset 1699990000000
  ∧ getOrdersByDate yangonOffset (ValidDate 1699990000000)
      (clearOrdersByDate quiet yangonOffset (ValidDate 1699950000000) sampleDB).1
    = [orderNextDay]
  ∧ getOrdersByDate yangonOffset (ValidDate 1699900000000) sampleDB
    = getOrdersByDate yangonOffset (ValidDate 1699950000000) sampleDB.
Proof.
  assert (Hne : localDay yangonOffset 1699950000000
                ≠ localDay yangonOffset 1699990000000) by discriminate.
  destruct (clearOrdersByDate_other_days quiet yangonOffset sampleDB
              1699950000000 1699990000000) as [_ Hother].
  destruct (clearOrdersByDate_other_days quiet yangonOffset sampleDB
              1699900000000 1699950000000) as [Hsame _].
  split_and!; [exact Hne|by rewrite (Hother Hne)|].
  apply Hsame. reflexivity.
Defined.


Lemma updateQuantity_one_line_witness :
  CartItem.cartId muffinLine = Some "3-1699950000100"
  ∧ Kiosk.updateQuantity "3-1699950000100" (-1) [largeEspressoLine; muffinLine]
    = [largeEspressoLine]
  ∧ Kiosk.updateQuantity "1-1699950000000" 1 [largeEspressoLine; muffinLine]
    = [withQuantity 3 largeEspressoLine; muffinLine].
Proof.
  assert (Hpos : Forall (λ i, 0 < CartItem.quantity i) [largeEspressoLine])
    by (by apply Forall_singleton).
  assert (Hid : Forall (λ i, CartItem.cartId i ≠ Some "3-1699950000100")
                  [largeEspressoLine]) by (by apply Forall_singleton).
  destruct (updateQuantity_one_line "3-1699950000100" (-1)
              [largeEspressoLine] muffinLine [] eq_refl)
    as [Hdrop _].
  { by rewrite app_nil_r. }
  { by rewrite app_nil_r. }
  split_and!; [reflexivity|exact Hdrop|reflexivity].
Defined.

Lemma getAdjustedPrice_bounds_witness :
  Forall (λ c, c.2 ∈ variationsOf c.1)
    [ ("Milk", VariationOption.mk "Oat" 500);
      ("Size", VariationOption.mk "Large" 500);
      ("Milk", VariationOption.mk "Skim" 0) ]
  ∧ Kiosk.getAdjustedPrice (Some espresso)
      (foldl (λ sel c, Kiosk.selectOption c.1 c.2 sel)
         (Kiosk.openItemModal espresso)
         [ ("Milk", VariationOption.mk "Oat" 500);
           ("Size", VariationOption.mk "Large" 500);
           ("Milk", VariationOption.mk "Skim" 0) ])
    ≤ MenuItem.price espresso + 1000.
Proof.
  assert (Hoff : Forall (λ c, c.2 ∈ variationsOf c.1)
    [ ("Milk", VariationOption.mk "Oat" 500);
      ("Size", VariationOption.mk "Large" 500);
      ("Milk", VariationOption.mk "Skim" 0) ]).
  { repeat apply Forall_cons_2; [..|apply Forall_nil_2];
      by apply (bool_decide_unpack _). }
  split; [exact Hoff|].
  apply (getAdjustedPrice_bounds espresso _ Hoff);
    [by vm_compute|by vm_compute].
Defined.

Lemma handleCheckout_places_order_witness :
  Kiosk.currentUser sampleKiosk = Some moCustomer
  ∧ Kiosk.cart sampleKiosk ≠ []
  ∧ Kiosk.tableNumber sampleKiosk ≠ ""
  ∧ nonNegative (Kiosk.cart sampleKiosk)
  ∧ exactTotal (Kiosk.cart sampleKiosk) ≤ 2 ^ 53
  ∧ ∃ order,
      Kiosk.activeOrder
        (Kiosk.handleCheckout quiet 1699950000800 1699950000801
           1699950000802 1699950000803 sampleKiosk sampleDB).1 = Some order
      ∧ Order.total order = 4000 * 2 + 4000 * 1
      ∧ checkStatus 1699950000800 (Some order)
          (Kiosk.handleCheckout quiet 1699950000800 1699950000801
             1699950000802 1699950000803 sampleKiosk sampleDB).2
        = [setActiveOrder order].
Proof.
  assert (Hcart : Kiosk.cart sampleKiosk ≠ []) by discriminate.
  assert (Htable : Kiosk.tableNumber sampleKiosk ≠ "") by discriminate.
  assert (Hnn : nonNegative (Kiosk.cart sampleKiosk)).
  { repeat apply Forall_cons_2; [..|apply Forall_nil_2];
      vm_compute; split; discriminate. }
  assert (Hle : exactTotal (Kiosk.cart sampleKiosk) ≤ 2 ^ 53)
    by (vm_compute; discriminate).
  destruct (handleCheckout_places_order quiet 1699950000800 1699950000801
              1699950000802 1699950000803 sampleKiosk sampleDB)
    as (_ & _ & Hplace).
  destruct (Hplace moCustomer eq_refl Hcart Htable)
    as (order & Hactive & _ & _ & _ & _ & _ & _ & Hitems & _ & Htotal & _
        & _ & _ & _ & Htrack).
  split_and!; [reflexivity|exact Hcart|exact Htable|exact Hnn|exact Hle|].
  exists order. split_and!.
  - exact Hactive.
  - rewrite (Htotal Hnn Hle), Hitems. reflexivity.
  - rewrite <-Hactive. apply Htrack.
    by apply (stored_ids_of_sampleDB (λ i, i ≠ 1699950000800)).
Defined.

Lemma optimisticUpdate_agrees_with_reload_witness :
  NoDup (Order.id <$> parse (hm_pos_orders (storage sampleDB)))
  ∧ AdminDashboard.optimisticUpdate 1001 preparing (getOrders sampleDB)
    = getOrders (updateOrderStatus quiet 1001 preparing sampleDB).
Proof.
  assert (Hnd : NoDup (Order.id <$> parse (hm_pos_orders (storage sampleDB))))
    by (apply (bool_decide_unpack _); by vm_compute).
  split; [exact Hnd|].
  exact (optimisticUpdate_agrees_with_reload quiet sampleDB 1001 preparing
           (getOrders sampleDB) eq_refl Hnd).
Defined.

Lemma addToCart_one_more_piece_witness :
  NoDup (lineId <$> sampleItems)
  ∧ exactCount (OrderSystem.addToCart muffin sampleItems)
    = exactCount sampleItems + 1
  ∧ OrderSystem.addToCart muffin sampleItems
    = [CartItem.mk espresso 2 None None; CartItem.mk muffin 2 None None].
Proof.
  assert (Hnd : NoDup (lineId <$> sampleItems))
    by (apply (bool_decide_unpack _); by vm_compute).
  destruct (addToCart_one_more_piece muffin sampleItems Hnd) as (_ & Hc & _).
  split_and!; [exact Hnd|exact Hc|reflexivity].
Defined.

(** C9. The claim fails on the code at Invalid Date, the date the report
    screen passes once its date field is cleared: on the sample shop
    [getOrdersByDate] returns no order, yet [clearOrdersByDate] removes all
    three orders and returns 3, not the number of orders
    [getOrdersByDate] returns. *)
Theorem clearOrdersByDate_invalid_date_removes_all :
  let cleared := clearOrdersByDate quiet yangonOffset InvalidDate sampleDB in
  getOrdersByDate yangonOffset InvalidDate sampleDB = []
  ∧ getOrders sampleDB = [orderNextDay; orderLastMs; orderNoon]
  ∧ getOrders cleared.1 = []
  ∧ hm_pos_orders (storage cleared.1) = Some []
  ∧ cleared.2 = 3
  ∧ cleared.2
    ≠ Z.of_nat (length (getOrdersByDate yangonOffset InvalidDate sampleDB)).
Proof.
  intros cleared. subst cleared.
  rewrite clearOrdersByDate_invalid, getOrdersByDate_invalid.
  split_and!; try reflexivity. discriminate.
Qed.
